(** * Life history: the calendar builder and the event mover

    A shallow embedding of [src/domain/LifeHistory.ts]: the nested
    decade / year / month / event structure, the two type guards on events,
    [LifeHistory.initiate] and [LifeHistory.moveEvent].

    Numbers are [Z] (every number the program computes on is an integer:
    years, months, indices, lengths).  Strings are [string].  The ambient
    services the program calls (the dayjs date library, [crypto.randomUUID],
    the system clock read by [dayjs()], [console.error]) are made explicit:
    the date parser and the two sources of fresh values are fields of an
    environment, and the number of values drawn so far together with the
    console output are threaded through a small state monad. *)

From Stdlib Require Import ZArith List String Ascii Bool Lia DecimalString
  Permutation.
Import ListNotations.
Open Scope string_scope.
Open Scope Z_scope.

(** ** JavaScript primitives used by the program *)

Module Js.

(** [String(n)] for an integer [n]. *)
Definition String_of (n : Z) : string := NilZero.string_of_int (Z.to_int n).

(** [Boolean(s)] for a string: every string but the empty one is truthy. *)
Definition truthy (s : string) : bool :=
  match s with
  | EmptyString => false
  | String _ _ => true
  end.

(** [Boolean(v)] for a value of type [string | null]. *)
Definition truthy_opt (v : option string) : bool :=
  match v with
  | None => false
  | Some s => truthy s
  end.

(** [a || b] on numbers: [0] is the one falsy integer. *)
Definition or_num (a b : Z) : Z := if a =? 0 then b else a.

(** The index list [0, 1, ..., length-1] that [Array.from({ length }, f)]
    walks; a length that is not positive gives no index at all. *)
Definition indices (length : Z) : list Z :=
  map Z.of_nat (seq 0 (Z.to_nat length)).

(** [s.padStart(n, "0")]. *)
Fixpoint zeros (n : nat) : string :=
  match n with
  | O => ""
  | S k => String "0"%char (zeros k)
  end.

Definition padStart0 (n : nat) (s : string) : string :=
  zeros (n - String.length s) ++ s.

End Js.

(** ** The date library *)

(** What the program reads from a valid dayjs object: its year, its month
    (zero-based, as dayjs has it) and its day of the month. *)
Record Dayjs : Type := mkDayjs {
  dj_year : Z;
  dj_month : Z;
  dj_date : Z
}.

(** [d.format("YYYY-MM")] and [d.format("YYYY-MM-DD")]; [None] is dayjs's
    Invalid Date, which formats as the text "Invalid Date". *)
Definition format_YYYY_MM (d : option Dayjs) : string :=
  match d with
  | None => "Invalid Date"
  | Some d =>
      Js.padStart0 4 (Js.String_of (dj_year d)) ++ "-" ++
      Js.padStart0 2 (Js.String_of (dj_month d + 1))
  end.

Definition format_YYYY_MM_DD (d : option Dayjs) : string :=
  match d with
  | None => "Invalid Date"
  | Some d =>
      Js.padStart0 4 (Js.String_of (dj_year d)) ++ "-" ++
      Js.padStart0 2 (Js.String_of (dj_month d + 1)) ++ "-" ++
      Js.padStart0 2 (Js.String_of (dj_date d))
  end.

(** ** Ambient services *)

(** The collaborators the program does not implement itself.
    [dayjs s] is the date dayjs parses from the string [s] ([None] for an
    Invalid Date); [randomUUID n] is the identifier returned by the [n]-th
    call of [crypto.randomUUID()]; [timestamp n] is the text returned by the
    [n]-th call of [dayjs().format()]. *)
Record Env : Type := mkEnv {
  dayjs : string -> option Dayjs;
  randomUUID : nat -> string;
  timestamp : nat -> string
}.

(** What a run has consumed and emitted so far. *)
Record World : Type := mkWorld {
  uuids_drawn : nat;
  clock_reads : nat;
  console : list string
}.

Definition M (A : Type) : Type := World -> A * World.

Definition ret {A} (a : A) : M A := fun w => (a, w).

Definition bind {A B} (m : M A) (k : A -> M B) : M B :=
  fun w => let (a, w') := m w in k a w'.

Notation "x <- m ;; k" := (bind m (fun x => k))
  (at level 61, m at next level, right associativity).
Notation "m >> k" := (bind m (fun _ => k))
  (at level 61, right associativity).

Fixpoint mapM {A B} (f : A -> M B) (l : list A) : M (list B) :=
  match l with
  | [] => ret []
  | a :: l' => b <- f a ;; bs <- mapM f l' ;; ret (b :: bs)
  end.

(** [Array.from({ length }, (_, i) => f i)] with an effectful callback. *)
Definition array_from {A} (length : Z) (f : Z -> M A) : M (list A) :=
  mapM f (Js.indices length).

Definition crypto_randomUUID (env : Env) : M string :=
  fun w => (randomUUID env (uuids_drawn w),
            mkWorld (S (uuids_drawn w)) (clock_reads w) (console w)).

Definition dayjs_now_format (env : Env) : M string :=
  fun w => (timestamp env (clock_reads w),
            mkWorld (uuids_drawn w) (S (clock_reads w)) (console w)).

Definition console_error (msg : string) : M unit :=
  fun w => (tt, mkWorld (uuids_drawn w) (clock_reads w) (console w ++ [msg])).

(** ** Data model *)

(** An event object.  The two TypeScript shapes differ in which of
    [event_text] and [event_image] the object carries; [None] is an absent
    property. *)
Record LifeHistoryEvent : Type := mkEvent {
  event_id : string;
  event_date : string;
  event_text : option string;
  event_image : option string;
  updated_at : string;
  user_id : string
}.

Record LifeHistoryMonth : Type := mkMonth {
  month_id : string;
  month : Z;
  events : list LifeHistoryEvent
}.

Record LifeHistoryYear : Type := mkYear {
  year_id : string;
  year : Z;
  months : list LifeHistoryMonth
}.

Record LifeHistoryDecade : Type := mkDecade {
  decade_id : string;
  decade : Z;
  years : list LifeHistoryYear
}.

Definition MonthlyLifeHistory : Type := list LifeHistoryDecade.

(** ** Type guards *)

Definition isLifeHistoryTextEvent (event : LifeHistoryEvent) : bool :=
  match event_text event with
  | Some text => Js.truthy text
  | None => false
  end.

Definition isLifeHistoryImageEvent (event : LifeHistoryEvent) : bool :=
  match event_image event with
  | Some image => Js.truthy image
  | None => false
  end.

(** ** The builder *)

Definition maxAge : Z := 80.

(** The innermost callback of [initiate]: the month at [monthIndex] of the
    year [year], with its one placeholder event. *)
Definition initiate_month (env : Env) (year startMonth monthIndex : Z)
  : M LifeHistoryMonth :=
  let month := startMonth + monthIndex in
  uuid <- crypto_randomUUID env ;;
  now <- dayjs_now_format env ;;
  ret {| month_id :=
           format_YYYY_MM
             (dayjs env (Js.String_of year ++ "-" ++ Js.String_of month ++ "-01"));
         month := month;
         events :=
           [ {| event_id := uuid;
                event_date :=
                  format_YYYY_MM_DD
                    (dayjs env
                       (Js.String_of year ++ "-" ++ Js.String_of month ++ "-15"));
                event_text := Some (Js.String_of monthIndex);
                event_image := None;
                updated_at := now;
                user_id := "string" |} ] |}.

(** First and last month of a year of the structure. *)
Definition startMonth_of (birthYear birthMonth year : Z) : Z :=
  if year =? birthYear then birthMonth else 1.

Definition endMonth_of (birthYear birthMonth year : Z) : Z :=
  if year =? birthYear + maxAge then Js.or_num (birthMonth - 1) 12 else 12.

(** The middle callback: the year at [yearIndex] of a decade. *)
Definition initiate_year (env : Env) (birthYear birthMonth : Z)
    (startYearInDecade yearIndex : Z) : M LifeHistoryYear :=
  let year := startYearInDecade + yearIndex in
  let startMonth := startMonth_of birthYear birthMonth year in
  let endMonth := endMonth_of birthYear birthMonth year in
  months <- array_from (endMonth - startMonth + 1)
              (initiate_month env year startMonth) ;;
  ret {| year_id := "year-" ++ Js.String_of year;
         year := year;
         months := months |}.

(** The outer callback: the decade at [decadeIndex]. *)
Definition initiate_decade (env : Env) (birthYear birthMonth : Z)
    (startDecade decadeIndex : Z) : M LifeHistoryDecade :=
  let maxYear := birthYear + maxAge in
  let decade := startDecade + decadeIndex in
  let decadeStartYear := decade * 10 in
  let decadeEndYear := decadeStartYear + 9 in
  let startYearInDecade := Z.max birthYear decadeStartYear in
  let endYearInDecade := Z.min maxYear decadeEndYear in
  years <- array_from (endYearInDecade - startYearInDecade + 1)
             (initiate_year env birthYear birthMonth startYearInDecade) ;;
  ret {| decade_id := "decade-" ++ Js.String_of decade;
         decade := decadeIndex + 1;
         years := years |}.

(** [LifeHistory.initiate].  [birthDate] has type [string | null].  When
    dayjs cannot parse the string, the year is NaN, so is the number of
    decades, and [Array.from] with a NaN length builds the empty array. *)
Definition initiate (env : Env) (birthDate : option string)
  : M MonthlyLifeHistory :=
  if negb (Js.truthy_opt birthDate) then ret []
  else
    match birthDate with
    | None => ret []
    | Some birthDate =>
        match dayjs env birthDate with
        | None => ret []
        | Some birthDateDayjs =>
            let birthYear := dj_year birthDateDayjs in
            let birthMonth := dj_month birthDateDayjs + 1 in
            let maxYear := birthYear + maxAge in
            let startDecade := birthYear / 10 in
            let endDecade := maxYear / 10 in
            let decadeCount := endDecade - startDecade + 1 in
            array_from decadeCount
              (initiate_decade env birthYear birthMonth startDecade)
        end
    end.

(** ** The mover *)

(** The object [{ decade, year, month }] that [findEntities] returns. *)
Record Entities : Type := mkEntities {
  ent_decade : LifeHistoryDecade;
  ent_year : LifeHistoryYear;
  ent_month : LifeHistoryMonth
}.

(** The three nested loops of [findEntities], innermost first: each returns
    at the first month whose id is [id]. *)
Fixpoint find_month (id : string) (ms : list LifeHistoryMonth)
  : option LifeHistoryMonth :=
  match ms with
  | [] => None
  | m :: rest =>
      if String.eqb (month_id m) id then Some m else find_month id rest
  end.

Fixpoint find_year (id : string) (d : LifeHistoryDecade)
    (ys : list LifeHistoryYear) : option Entities :=
  match ys with
  | [] => None
  | y :: rest =>
      match find_month id (months y) with
      | Some m => Some (mkEntities d y m)
      | None => find_year id d rest
      end
  end.

Fixpoint findEntities (lifeHistory : MonthlyLifeHistory) (id : string)
  : option Entities :=
  match lifeHistory with
  | [] => None
  | d :: rest =>
      match find_year id d (years d) with
      | Some found => Some found
      | None => findEntities rest id
      end
  end.

(** The object spread [{ ...eventToMove, event_date, updated_at }]: a copy of
    the event with its two date fields replaced. *)
Definition with_dates (e : LifeHistoryEvent) (date stamp : string)
  : LifeHistoryEvent :=
  {| event_id := event_id e;
     event_date := date;
     event_text := event_text e;
     event_image := event_image e;
     updated_at := stamp;
     user_id := user_id e |}.

(** The object spreads [{ ...month, events }], [{ ...year, months }] and
    [{ ...decade, years }]: a copy of the node with one field replaced. *)
Definition with_events (m : LifeHistoryMonth)
    (evs : list LifeHistoryEvent) : LifeHistoryMonth :=
  {| month_id := month_id m; month := month m; events := evs |}.

Definition with_months (y : LifeHistoryYear)
    (ms : list LifeHistoryMonth) : LifeHistoryYear :=
  {| year_id := year_id y; year := year y; months := ms |}.

Definition with_years (d : LifeHistoryDecade)
    (ys : list LifeHistoryYear) : LifeHistoryDecade :=
  {| decade_id := decade_id d; decade := decade d; years := ys |}.

(** The nested [map] that both passes of [moveEvent] run: decades other than
    the one with id [decadeId] are returned as they are, inside it years
    other than [yearId], inside that months other than [monthId]; the months
    that remain get the event list [f] computes. *)
Definition update_months (decadeId yearId monthId : string)
    (f : list LifeHistoryEvent -> list LifeHistoryEvent)
    (lifeHistory : MonthlyLifeHistory) : MonthlyLifeHistory :=
  map (fun d =>
         if negb (String.eqb (decade_id d) decadeId) then d
         else
           with_years d
             (map (fun y =>
                     if negb (String.eqb (year_id y) yearId) then y
                     else
                       with_months y
                         (map (fun m =>
                                 if negb (String.eqb (month_id m) monthId) then m
                                 else with_events m (f (events m)))
                              (months y)))
                  (years d)))
      lifeHistory.

(** [LifeHistory.moveEvent]. *)
Definition moveEvent (env : Env) (event : LifeHistoryEvent)
    (lifeHistory : MonthlyLifeHistory)
    (sourceMonth targetMonth : LifeHistoryMonth) : M MonthlyLifeHistory :=
  let eventId := event_id event in
  let idMonthSource := month_id sourceMonth in
  let idMonthTarget := month_id targetMonth in
  match findEntities lifeHistory idMonthSource,
        findEntities lifeHistory idMonthTarget with
  | Some sourceEntities, Some targetEntities =>
      match find (fun e => String.eqb (event_id e) eventId)
                 (events (ent_month sourceEntities)) with
      | None =>
          console_error "Event not found in source month" >>
          ret lifeHistory
      | Some eventToMove =>
          let targetDate :=
            dayjs env (month_id (ent_month targetEntities) ++ "-15") in
          now <- dayjs_now_format env ;;
          let updatedEvent :=
            with_dates eventToMove (format_YYYY_MM_DD targetDate) now in
          let updatedLifeHistory :=
            update_months (decade_id (ent_decade sourceEntities))
              (year_id (ent_year sourceEntities)) idMonthSource
              (filter (fun e => negb (String.eqb (event_id e) eventId)))
              lifeHistory in
          ret (update_months (decade_id (ent_decade targetEntities))
                 (year_id (ent_year targetEntities)) idMonthTarget
                 (fun evs => (evs ++ [updatedEvent])%list)
                 updatedLifeHistory)
      end
  | _, _ =>
      console_error "Source or target entities not found" >>
      ret lifeHistory
  end.

(** ** Views of a structure *)

(** Every month of a structure, in document order, and every month paired
    with the calendar year of the year node that owns it. *)
Definition year_keys (y : LifeHistoryYear) : list (Z * Z) :=
  map (fun m => (year y, month m)) (months y).

Definition decade_keys (d : LifeHistoryDecade) : list (Z * Z) :=
  flat_map year_keys (years d).

Definition month_keys (lifeHistory : MonthlyLifeHistory) : list (Z * Z) :=
  flat_map decade_keys lifeHistory.

Definition decade_months (d : LifeHistoryDecade) : list LifeHistoryMonth :=
  flat_map months (years d).

Definition all_months (lifeHistory : MonthlyLifeHistory)
  : list LifeHistoryMonth :=
  flat_map decade_months lifeHistory.

(** The last element of a list, when it has one. *)
Fixpoint last_opt {A} (l : list A) : option A :=
  match l with
  | [] => None
  | [a] => Some a
  | _ :: l' => last_opt l'
  end.

(** The first month of the first year of the first decade, and the last
    month of the last year of the last decade, as (year, month). *)
Definition first_month (lifeHistory : MonthlyLifeHistory) : option (Z * Z) :=
  match lifeHistory with
  | d :: _ =>
      match years d with
      | y :: _ =>
          match months y with
          | m :: _ => Some (year y, month m)
          | [] => None
          end
      | [] => None
      end
  | [] => None
  end.

Definition last_month (lifeHistory : MonthlyLifeHistory) : option (Z * Z) :=
  match last_opt lifeHistory with
  | Some d =>
      match last_opt (years d) with
      | Some y =>
          match last_opt (months y) with
          | Some m => Some (year y, month m)
          | None => None
          end
      | None => None
      end
  | None => None
  end.

(** Strict lexicographic order on (year, month). *)
Definition key_lt (a b : Z * Z) : Prop :=
  fst a < fst b \/ (fst a = fst b /\ snd a < snd b).

(** ** Updates of months in place

    [map_months h] rebuilds a structure with every month [m] replaced by
    [h di yi m], where [di] and [yi] are the ids of the decade and of the
    year that own [m]. *)
Definition map_months
    (h : string -> string -> LifeHistoryMonth -> LifeHistoryMonth)
    (lifeHistory : MonthlyLifeHistory) : MonthlyLifeHistory :=
  map (fun d =>
         with_years d
           (map (fun y =>
                   with_months y (map (h (decade_id d) (year_id y)) (months y)))
                (years d)))
      lifeHistory.

(** What one pass of [moveEvent] does to a month owned by the decade [di]
    and the year [yi]. *)
Definition guarded (decadeId yearId monthId : string)
    (f : list LifeHistoryEvent -> list LifeHistoryEvent)
    (di yi : string) (m : LifeHistoryMonth) : LifeHistoryMonth :=
  if String.eqb di decadeId && String.eqb yi yearId
     && String.eqb (month_id m) monthId
  then with_events m (f (events m))
  else m.

(** The same, for a month looked at on its own. *)
Definition on_month (monthId : string)
    (f : list LifeHistoryEvent -> list LifeHistoryEvent)
    (m : LifeHistoryMonth) : LifeHistoryMonth :=
  if String.eqb (month_id m) monthId then with_events m (f (events m)) else m.

(** The two event-list edits of [moveEvent]. *)
Definition without_event (eventId : string) (evs : list LifeHistoryEvent)
  : list LifeHistoryEvent :=
  filter (fun e => negb (String.eqb (event_id e) eventId)) evs.

Definition with_event (e : LifeHistoryEvent) (evs : list LifeHistoryEvent)
  : list LifeHistoryEvent :=
  (evs ++ [e])%list.

(** How many events of a list carry the id [eventId]. *)
Definition count_id (eventId : string) (evs : list LifeHistoryEvent) : nat :=
  List.length (filter (fun e => String.eqb (event_id e) eventId) evs).

(** ** Nodes on the path to the source or target month

    A month is on the path when its id is the source or the target id; a
    year or a decade is on the path when it owns such a month. *)
Definition month_on_path (src tgt : string) (m : LifeHistoryMonth) : bool :=
  String.eqb (month_id m) src || String.eqb (month_id m) tgt.

Definition year_on_path (src tgt : string) (y : LifeHistoryYear) : bool :=
  existsb (month_on_path src tgt) (months y).

Definition decade_on_path (src tgt : string) (d : LifeHistoryDecade) : bool :=
  existsb (year_on_path src tgt) (years d).

(** A node and the node that stands in its place after a move: same
    identity, and the same node altogether when it is off the path. *)
Definition month_frame (src tgt : string) (m m' : LifeHistoryMonth) : Prop :=
  month_id m' = month_id m /\ month m' = month m /\
  (month_on_path src tgt m = false -> m' = m).

Definition year_frame (src tgt : string) (y y' : LifeHistoryYear) : Prop :=
  year_id y' = year_id y /\ year y' = year y /\
  (year_on_path src tgt y = false -> y' = y) /\
  Forall2 (month_frame src tgt) (months y) (months y').

Definition decade_frame (src tgt : string) (d d' : LifeHistoryDecade) : Prop :=
  decade_id d' = decade_id d /\ decade d' = decade d /\
  (decade_on_path src tgt d = false -> d' = d) /\
  Forall2 (year_frame src tgt) (years d) (years d').

(** ** A sample environment

    A date parser for the canonical strings the examples use: four digits
    of year, a dash, one or two digits of month, a dash, one or two digits
    of day, naming a day that exists in the calendar.  A year below 100 is
    read as 1900 + year, as the JavaScript [Date] constructor does.  Every
    other string is left as an Invalid Date here; the theorems below hold
    for any parser and use this one only to run examples. *)
Module Sample.

Definition digit_of (c : ascii) : option Z :=
  let n := Z.of_nat (nat_of_ascii c) in
  if (48 <=? n) && (n <=? 57) then Some (n - 48) else None.

Fixpoint number_of (acc : Z) (s : string) : option Z :=
  match s with
  | EmptyString => Some acc
  | String c rest =>
      match digit_of c with
      | Some d => number_of (10 * acc + d) rest
      | None => None
      end
  end.

(** The fields of [s] between dashes; [cur] is the field being read, in
    reverse. *)
Fixpoint fields (cur : string) (s : string) : list string :=
  match s with
  | EmptyString => [cur]
  | String c rest =>
      if Ascii.eqb c "-"%char then cur :: fields "" rest
      else fields (cur ++ String c "") rest
  end.

Definition leap (y : Z) : bool :=
  ((y mod 4 =? 0) && negb (y mod 100 =? 0)) || (y mod 400 =? 0).

Definition days_in_month (y m : Z) : Z :=
  if m =? 2 then (if leap y then 29 else 28)
  else if (m =? 4) || (m =? 6) || (m =? 9) || (m =? 11) then 30
  else 31.

Definition parse (s : string) : option Dayjs :=
  match fields "" s with
  | [ys; ms; ds] =>
      if (String.length ys =? 4)%nat
         && (1 <=? String.length ms)%nat && (String.length ms <=? 2)%nat
         && (1 <=? String.length ds)%nat && (String.length ds <=? 2)%nat
      then
        match number_of 0 ys, number_of 0 ms, number_of 0 ds with
        | Some y, Some m, Some d =>
            let y := if y <? 100 then 1900 + y else y in
            if (1 <=? m) && (m <=? 12) && (1 <=? d)
               && (d <=? days_in_month y m)
            then Some (mkDayjs y (m - 1) d)
            else None
        | _, _, _ => None
        end
      else None
  | _ => None
  end.

Definition env : Env :=
  {| dayjs := parse;
     randomUUID := fun n => "uuid-" ++ Js.String_of (Z.of_nat n);
     timestamp := fun n => "tick-" ++ Js.String_of (Z.of_nat n) |}.

Definition world0 : World := mkWorld 0 0 [].

(** A small structure: two decades, three years, four months, and four
    events, two of them in June 2000. *)
Definition note : LifeHistoryEvent :=
  mkEvent "e1" "2000-06-03" (Some "first steps") None "t0" "u1".

Definition photo : LifeHistoryEvent :=
  mkEvent "e2" "2000-06-20" None (Some "img/beach.png") "t0" "u1".

Definition letter : LifeHistoryEvent :=
  mkEvent "e3" "2000-07-09" (Some "a letter") None "t0" "u1".

Definition trip : LifeHistoryEvent :=
  mkEvent "e4" "2010-01-02" (Some "a trip") None "t0" "u1".

Definition june : LifeHistoryMonth := mkMonth "2000-06" 6 [note; photo].
Definition july : LifeHistoryMonth := mkMonth "2000-07" 7 [letter].
Definition january01 : LifeHistoryMonth := mkMonth "2001-01" 1 [].
Definition january10 : LifeHistoryMonth := mkMonth "2010-01" 1 [trip].

(** A month that belongs to no structure. *)
Definition stray : LifeHistoryMonth := mkMonth "1999-12" 12 [].

Definition history : MonthlyLifeHistory :=
  [ mkDecade "decade-200" 1
      [ mkYear "year-2000" 2000 [june; july];
        mkYear "year-2001" 2001 [january01] ];
    mkDecade "decade-201" 2
      [ mkYear "year-2010" 2010 [january10] ] ].




End Sample.

(** ** The calendar without its effects

    The shape of a structure keeps, for every decade, its years, and for
    every year its calendar year and its month numbers.  [calendar] is the
    shape [initiate] builds, computed without drawing identifiers or
    reading the clock. *)

Definition Shape : Type := list (list (Z * list Z)).

Definition shape (lifeHistory : MonthlyLifeHistory) : Shape :=
  map (fun d => map (fun y => (year y, map month (months y))) (years d))
      lifeHistory.

Definition calendar_year (birthYear birthMonth : Z)
    (startYearInDecade yearIndex : Z) : Z * list Z :=
  let year := startYearInDecade + yearIndex in
  let startMonth := startMonth_of birthYear birthMonth year in
  let endMonth := endMonth_of birthYear birthMonth year in
  (year, map (fun monthIndex => startMonth + monthIndex)
             (Js.indices (endMonth - startMonth + 1))).

Definition calendar_decade (birthYear birthMonth : Z)
    (startDecade decadeIndex : Z) : list (Z * list Z) :=
  let maxYear := birthYear + maxAge in
  let decade := startDecade + decadeIndex in
  let decadeStartYear := decade * 10 in
  let decadeEndYear := decadeStartYear + 9 in
  let startYearInDecade := Z.max birthYear decadeStartYear in
  let endYearInDecade := Z.min maxYear decadeEndYear in
  map (calendar_year birthYear birthMonth startYearInDecade)
      (Js.indices (endYearInDecade - startYearInDecade + 1)).

Definition calendar (birthYear birthMonth : Z) : Shape :=
  let maxYear := birthYear + maxAge in
  let startDecade := birthYear / 10 in
  let endDecade := maxYear / 10 in
  map (calendar_decade birthYear birthMonth startDecade)
      (Js.indices (endDecade - startDecade + 1)).

Definition shape_year_keys (y : Z * list Z) : list (Z * Z) :=
  map (fun m => (fst y, m)) (snd y).

Definition shape_keys (s : Shape) : list (Z * Z) :=
  flat_map (flat_map shape_year_keys) s.

Definition shape_first (s : Shape) : option (Z * Z) :=
  match s with
  | (((y, m :: _) :: _) :: _) => Some (y, m)
  | _ => None
  end.

Definition shape_last (s : Shape) : option (Z * Z) :=
  match last_opt s with
  | Some d =>
      match last_opt d with
      | Some (y, ms) =>
          match last_opt ms with
          | Some m => Some (y, m)
          | None => None
          end
      | None => None
      end
  | None => None
  end.

(** A shape moved [c] years along the calendar. *)
Definition shift_key (c : Z) (k : Z * Z) : Z * Z := (fst k + c, snd k).

Definition shift_year (c : Z) (y : Z * list Z) : Z * list Z :=
  (fst y + c, snd y).

Definition shift_shape (c : Z) (s : Shape) : Shape :=
  map (map (shift_year c)) s.

Definition key_eqb (a b : Z * Z) : bool :=
  (fst a =? fst b) && (snd a =? snd b).

Definition key_ltb (a b : Z * Z) : bool :=
  (fst a <? fst b) || ((fst a =? fst b) && (snd a <? snd b)).

Definition opt_key_eqb (a : option (Z * Z)) (b : Z * Z) : bool :=
  match a with
  | Some k => key_eqb k b
  | None => false
  end.

(** What the builder does in the final year: the last month emitted. *)
Definition lastMonth_of (birthMonth : Z) : Z := Js.or_num (birthMonth - 1) 12.

(** How many months the builder emits. *)
Definition monthCount_of (birthMonth : Z) : nat :=
  if birthMonth =? 1 then 972%nat else 960%nat.

(** Everything the theorems on [initiate] need from the calendar of a birth
    year [r] in the first decade, as one executable test. *)
Definition calendar_check (r birthMonth : Z) : bool :=
  let s := calendar r birthMonth in
  (List.length (shape_keys s) =? monthCount_of birthMonth)%nat
  && opt_key_eqb (shape_first s) (r, birthMonth)
  && opt_key_eqb (shape_last s) (r + maxAge, lastMonth_of birthMonth)
  && opt_key_eqb (last_opt (shape_keys s)) (r + maxAge, lastMonth_of birthMonth)
  && match shape_keys s with
     | k :: rest => key_eqb k (r, birthMonth) && forallb (key_ltb (r, birthMonth)) rest
     | [] => false
     end.

Definition calendar_check_all : bool :=
  forallb (fun r => forallb (calendar_check r) (map Z.of_nat (seq 1 12)))
          (map Z.of_nat (seq 0 10)).

(** A string is the birth date of year [birthYear] and month [birthMonth]
    (1 to 12) when it is not empty and dayjs parses it to a date of that
    year and month. *)
Definition birth_date (env : Env) (s : string) (birthYear birthMonth : Z)
  : Prop :=
  s <> "" /\ 1 <= birthMonth <= 12 /\
  exists day, dayjs env s = Some (mkDayjs birthYear (birthMonth - 1) day).


(** ** Further views, for the properties beyond the claims *)

Definition all_years (lifeHistory : MonthlyLifeHistory) : list LifeHistoryYear :=
  flat_map years lifeHistory.

Definition all_events (lifeHistory : MonthlyLifeHistory)
  : list LifeHistoryEvent :=
  flat_map events (all_months lifeHistory).

(** The world after [k] more identifiers and [k] more clock readings. *)
Definition advance (k : nat) (w : World) : World :=
  mkWorld (uuids_drawn w + k) (clock_reads w + k) (console w).

(** The events [evs] were created in order between the worlds [w] and [w']:
    their ids are the next identifiers of the generator, their stamps the
    next readings of the clock, one of each per event. *)
Definition drawn (env : Env) (evs : list LifeHistoryEvent) (w w' : World)
  : Prop :=
  map event_id evs
  = map (randomUUID env) (seq (uuids_drawn w) (List.length evs)) /\
  map updated_at evs
  = map (timestamp env) (seq (clock_reads w) (List.length evs)) /\
  w' = advance (List.length evs) w.

(** The month after a month of the calendar. *)
Definition next_month (k : Z * Z) : Z * Z :=
  if snd k =? 12 then (fst k + 1, 1) else (fst k, snd k + 1).

(** Every element of the list is followed by the next calendar month. *)
Fixpoint chained (l : list (Z * Z)) : Prop :=
  match l with
  | a :: (b :: _) as rest => b = next_month a /\ chained rest
  | _ => True
  end.

Fixpoint chainedb (l : list (Z * Z)) : bool :=
  match l with
  | a :: (b :: _) as rest => key_eqb b (next_month a) && chainedb rest
  | _ => true
  end.

Definition month_in_range (k : Z * Z) : bool :=
  (1 <=? snd k) && (snd k <=? 12).

Fixpoint zlist_eqb (a b : list Z) : bool :=
  match a, b with
  | [], [] => true
  | x :: a', y :: b' => (x =? y) && zlist_eqb a' b'
  | _, _ => false
  end.

Definition shape_years (s : Shape) : list Z := map fst (List.concat s).

(** The order of the calendar of a birth year [r] in the first decade, as
    one executable test: months chained and between 1 and 12, years
    consecutive from [r] to [r + 80], no decade and no year empty. *)
Definition calendar_order_check (r birthMonth : Z) : bool :=
  let s := calendar r birthMonth in
  chainedb (shape_keys s)
  && forallb month_in_range (shape_keys s)
  && zlist_eqb (shape_years s) (map (fun i => r + i) (Js.indices 81))
  && forallb (fun d => negb (Nat.eqb (List.length d) 0)) s
  && forallb (forallb (fun y => negb (Nat.eqb (List.length (snd y)) 0))) s.

Definition calendar_order_check_all : bool :=
  forallb (fun r => forallb (calendar_order_check r) (map Z.of_nat (seq 1 12)))
          (map Z.of_nat (seq 0 10)).

(** What survives a move of an event: its identity, content and owner. *)
Definition content (e : LifeHistoryEvent)
  : string * option string * option string * string :=
  (event_id e, event_text e, event_image e, user_id e).

(** * Theorems *)

(** ** The type guards *)

Lemma truthy_nonempty (s : string) : Js.truthy s = true <-> s <> "".
Proof.
  destruct s as [|c s]; simpl; split; intro H.
  - discriminate H.
  - exfalso; apply H; reflexivity.
  - discriminate.
  - reflexivity.
Qed.

(** C9.  [isLifeHistoryTextEvent] answers true exactly when the event carries
    an [event_text] property whose value is a non-empty string, and
    [isLifeHistoryImageEvent] exactly when it carries a non-empty
    [event_image]; an event whose [event_text] is the empty string is not a
    text event. *)
Theorem type_guards_by_presence_and_truthiness (event : LifeHistoryEvent) :
  (isLifeHistoryTextEvent event = true <->
     exists text, event_text event = Some text /\ text <> "") /\
  (isLifeHistoryImageEvent event = true <->
     exists image, event_image event = Some image /\ image <> "") /\
  (event_text event = Some "" -> isLifeHistoryTextEvent event = false).
Proof.
  unfold isLifeHistoryTextEvent, isLifeHistoryImageEvent.
  repeat split.
  - destruct (event_text event) as [text|]; intro H; [|discriminate H].
    exists text; split; [reflexivity | now apply truthy_nonempty].
  - intros [text [-> H]]. now apply truthy_nonempty.
  - destruct (event_image event) as [image|]; intro H; [|discriminate H].
    exists image; split; [reflexivity | now apply truthy_nonempty].
  - intros [image [-> H]]. now apply truthy_nonempty.
  - intros ->. reflexivity.
Qed.

Lemma type_guards_witness :
  isLifeHistoryTextEvent (mkEvent "e1" "2000-06-15" (Some "") None "t" "u")
  = false.
Proof.
  apply (type_guards_by_presence_and_truthiness
           (mkEvent "e1" "2000-06-15" (Some "") None "t" "u")).
  reflexivity.
Defined.

(** ** The builder on an absent birth date *)

(** C8.  [initiate(null)] is the empty sequence of decades; nothing is drawn
    from the ambient services and nothing is reported. *)
Theorem initiate_null (env : Env) (w : World) :
  initiate env None w = ([], w).
Proof. reflexivity. Qed.

(** C10.  The absence test of [initiate] is a truthiness test: the empty
    string, like every falsy birth date, gives the empty sequence. *)
Theorem initiate_falsy (env : Env) (w : World) :
  initiate env (Some "") w = ([], w) /\
  forall birthDate, Js.truthy_opt birthDate = false ->
    initiate env birthDate w = ([], w).
Proof.
  split; [reflexivity|].
  intros birthDate H. unfold initiate. rewrite H. reflexivity.
Qed.

Lemma initiate_falsy_witness :
  initiate Sample.env (Some "") Sample.world0 = ([], Sample.world0).
Proof.
  apply (proj2 (initiate_falsy Sample.env Sample.world0) (Some "")).
  reflexivity.
Defined.

(** ** The builder: from the effectful run to the calendar *)

Section Projection.

Context {A B C : Type} (f : A -> M B) (proj : B -> C) (g : A -> C).
Hypothesis proj_f : forall a w, proj (fst (f a w)) = g a.

(** A view of the results that no callback lets depend on the world can
    be computed from the indices alone. *)
Lemma mapM_map_fst (l : list A) (w : World) :
  map proj (fst (mapM f l w)) = map g l.
Proof.
  revert w; induction l as [|a l IH]; intro w; simpl; [reflexivity|].
  unfold bind. destruct (f a w) as [b w1] eqn:Ea.
  destruct (mapM f l w1) as [bs w2] eqn:El. simpl.
  f_equal.
  - rewrite <- (proj_f a w), Ea. reflexivity.
  - rewrite <- (IH w1), El. reflexivity.
Qed.

End Projection.

Lemma month_initiate_month env y startMonth monthIndex w :
  month (fst (initiate_month env y startMonth monthIndex w))
  = startMonth + monthIndex.
Proof. reflexivity. Qed.

Lemma shape_initiate_year env birthYear birthMonth startYear yearIndex w :
  (fun y => (year y, map month (months y)))
    (fst (initiate_year env birthYear birthMonth startYear yearIndex w))
  = calendar_year birthYear birthMonth startYear yearIndex.
Proof.
  unfold initiate_year, calendar_year, array_from, bind.
  destruct (mapM _ _ w) as [ms w1] eqn:E. simpl. f_equal.
  replace ms with (fst (mapM
    (initiate_month env (startYear + yearIndex)
       (startMonth_of birthYear birthMonth (startYear + yearIndex)))
    (Js.indices
       (endMonth_of birthYear birthMonth (startYear + yearIndex)
        - startMonth_of birthYear birthMonth (startYear + yearIndex) + 1)) w))
    by (rewrite E; reflexivity).
  apply mapM_map_fst. intros; apply month_initiate_month.
Qed.

Lemma shape_initiate_decade env birthYear birthMonth startDecade decadeIndex w :
  (fun d => map (fun y => (year y, map month (months y))) (years d))
    (fst (initiate_decade env birthYear birthMonth startDecade decadeIndex w))
  = calendar_decade birthYear birthMonth startDecade decadeIndex.
Proof.
  unfold initiate_decade, calendar_decade, array_from, bind.
  destruct (mapM _ _ w) as [ys w1] eqn:E. simpl.
  match type of E with mapM ?f ?l w = _ =>
    replace ys with (fst (mapM f l w)) by (rewrite E; reflexivity) end.
  apply mapM_map_fst. intros; apply shape_initiate_year.
Qed.

(** The structure built for a birth date has the shape of the calendar of
    its year and month. *)
Lemma shape_initiate env s birthYear birthMonth w :
  birth_date env s birthYear birthMonth ->
  shape (fst (initiate env (Some s) w)) = calendar birthYear birthMonth.
Proof.
  intros [Hs [_ [day Hd]]].
  unfold initiate.
  replace (negb (Js.truthy_opt (Some s))) with false
    by (destruct s; [contradiction Hs; reflexivity | reflexivity]).
  rewrite Hd. simpl dj_year. simpl dj_month.
  replace (birthMonth - 1 + 1) with birthMonth by lia.
  unfold shape, calendar, array_from.
  apply mapM_map_fst. intros; apply shape_initiate_decade.
Qed.

(** ** The views factor through the shape *)

Lemma last_opt_map {A B} (f : A -> B) (l : list A) :
  last_opt (map f l) = option_map f (last_opt l).
Proof.
  induction l as [|a [|b l] IH]; simpl; try reflexivity.
  simpl in IH. exact IH.
Qed.

Lemma month_keys_shape lifeHistory :
  month_keys lifeHistory = shape_keys (shape lifeHistory).
Proof.
  unfold month_keys, shape_keys, shape.
  induction lifeHistory as [|d l IH]; simpl; [reflexivity|].
  rewrite IH. f_equal.
  unfold decade_keys. induction (years d) as [|y ys IHy]; simpl; [reflexivity|].
  rewrite IHy. f_equal.
  unfold year_keys, shape_year_keys. simpl. rewrite map_map. reflexivity.
Qed.

Lemma first_month_shape lifeHistory :
  first_month lifeHistory = shape_first (shape lifeHistory).
Proof.
  destruct lifeHistory as [|d l]; simpl; [reflexivity|].
  destruct (years d) as [|y ys]; simpl; [reflexivity|].
  destruct (months y) as [|m ms]; reflexivity.
Qed.

Lemma last_month_shape lifeHistory :
  last_month lifeHistory = shape_last (shape lifeHistory).
Proof.
  unfold last_month, shape_last, shape.
  rewrite last_opt_map. destruct (last_opt lifeHistory) as [d|]; simpl; [|reflexivity].
  rewrite last_opt_map. destruct (last_opt (years d)) as [y|]; simpl; [|reflexivity].
  rewrite last_opt_map. destruct (last_opt (months y)) as [m|]; reflexivity.
Qed.

Lemma all_months_count lifeHistory :
  List.length (all_months lifeHistory) = List.length (month_keys lifeHistory).
Proof.
  unfold all_months, month_keys.
  induction lifeHistory as [|d l IH]; simpl; [reflexivity|].
  rewrite !length_app, IH. f_equal.
  unfold decade_months, decade_keys.
  induction (years d) as [|y ys IHy]; simpl; [reflexivity|].
  rewrite !length_app, IHy. f_equal.
  unfold year_keys. now rewrite length_map.
Qed.

(** ** The calendar of a birth year is that of its last digit, moved *)

Lemma calendar_year_shift birthYear birthMonth startYear yearIndex c :
  calendar_year (birthYear + c) birthMonth (startYear + c) yearIndex
  = shift_year c (calendar_year birthYear birthMonth startYear yearIndex).
Proof.
  unfold calendar_year, shift_year, startMonth_of, endMonth_of. simpl.
  assert (E1 : (startYear + c + yearIndex =? birthYear + c)
               = (startYear + yearIndex =? birthYear)).
  { destruct (Z.eqb_spec (startYear + yearIndex) birthYear);
      [apply Z.eqb_eq | apply Z.eqb_neq]; lia. }
  assert (E2 : (startYear + c + yearIndex =? birthYear + c + maxAge)
               = (startYear + yearIndex =? birthYear + maxAge)).
  { destruct (Z.eqb_spec (startYear + yearIndex) (birthYear + maxAge));
      [apply Z.eqb_eq | apply Z.eqb_neq]; lia. }
  rewrite E1, E2. f_equal. lia.
Qed.

Lemma calendar_decade_shift birthYear birthMonth startDecade decadeIndex q :
  calendar_decade (birthYear + q * 10) birthMonth (startDecade + q) decadeIndex
  = map (shift_year (q * 10))
        (calendar_decade birthYear birthMonth startDecade decadeIndex).
Proof.
  unfold calendar_decade. cbv zeta.
  replace ((startDecade + q + decadeIndex) * 10)
    with ((startDecade + decadeIndex) * 10 + q * 10) by lia.
  replace (birthYear + q * 10 + maxAge)
    with (birthYear + maxAge + q * 10) by lia.
  replace ((startDecade + decadeIndex) * 10 + q * 10 + 9)
    with ((startDecade + decadeIndex) * 10 + 9 + q * 10) by lia.
  rewrite Z.add_max_distr_r, Z.add_min_distr_r.
  match goal with |- map _ (Js.indices ?n) = map _ (map _ (Js.indices ?m)) =>
    replace n with m by lia end.
  rewrite map_map. apply map_ext. intro yearIndex.
  replace (birthYear + maxAge + q * 10) with (birthYear + q * 10 + maxAge)
    by lia.
  apply calendar_year_shift.
Qed.

Lemma calendar_shift birthYear birthMonth q :
  calendar (birthYear + q * 10) birthMonth
  = shift_shape (q * 10) (calendar birthYear birthMonth).
Proof.
  unfold calendar, shift_shape. cbv zeta.
  replace (birthYear + q * 10 + maxAge)
    with (birthYear + maxAge + q * 10) by lia.
  rewrite !Z.div_add by lia.
  match goal with |- map _ (Js.indices ?n) = map _ (map _ (Js.indices ?m)) =>
    replace n with m by lia end.
  rewrite map_map. apply map_ext. intro decadeIndex.
  apply calendar_decade_shift.
Qed.

Lemma shape_keys_shift c s :
  shape_keys (shift_shape c s) = map (shift_key c) (shape_keys s).
Proof.
  unfold shape_keys, shift_shape.
  induction s as [|d s IH]; simpl; [reflexivity|].
  rewrite map_app, IH. f_equal.
  induction d as [|y d IHd]; simpl; [reflexivity|].
  rewrite map_app, IHd. f_equal.
  unfold shape_year_keys, shift_year, shift_key. simpl.
  now rewrite map_map.
Qed.

Lemma shape_first_shift c s :
  shape_first (shift_shape c s) = option_map (shift_key c) (shape_first s).
Proof.
  destruct s as [|[|[y [|m ms]] d] s]; reflexivity.
Qed.

Lemma shape_last_shift c s :
  shape_last (shift_shape c s) = option_map (shift_key c) (shape_last s).
Proof.
  unfold shape_last, shift_shape.
  rewrite last_opt_map. destruct (last_opt s) as [d|]; simpl; [|reflexivity].
  rewrite last_opt_map. destruct (last_opt d) as [[y ms]|]; simpl; [|reflexivity].
  destruct (last_opt ms); reflexivity.
Qed.

(** ** The calendars of the first decade, by evaluation *)

Lemma calendar_check_all_true : calendar_check_all = true.
Proof. vm_compute. reflexivity. Qed.

Lemma calendar_check_true r birthMonth :
  0 <= r < 10 -> 1 <= birthMonth <= 12 -> calendar_check r birthMonth = true.
Proof.
  intros Hr Hm.
  pose proof calendar_check_all_true as H. unfold calendar_check_all in H.
  rewrite forallb_forall in H.
  specialize (H r). rewrite forallb_forall in H.
  apply H.
  - apply in_map_iff. exists (Z.to_nat r). split; [lia|]. apply in_seq. lia.
  - apply in_map_iff. exists (Z.to_nat birthMonth). split; [lia|].
    apply in_seq. lia.
Qed.

Lemma key_eqb_eq a b : key_eqb a b = true -> a = b.
Proof.
  destruct a, b. unfold key_eqb. simpl. intro H.
  apply andb_prop in H. destruct H as [H1 H2].
  apply Z.eqb_eq in H1, H2. congruence.
Qed.

Lemma opt_key_eqb_eq a b : opt_key_eqb a b = true -> a = Some b.
Proof.
  destruct a as [k|]; simpl; [|discriminate].
  intro H. f_equal. now apply key_eqb_eq.
Qed.

Lemma key_ltb_lt a b : key_ltb a b = true -> key_lt a b.
Proof.
  unfold key_ltb, key_lt. intro H.
  apply orb_prop in H. destruct H as [H|H].
  - left. now apply Z.ltb_lt.
  - right. apply andb_prop in H. destruct H as [H1 H2].
    split; [now apply Z.eqb_eq | now apply Z.ltb_lt].
Qed.

Lemma key_lt_shift c a b : key_lt a b -> key_lt (shift_key c a) (shift_key c b).
Proof. unfold key_lt, shift_key. simpl. lia. Qed.

(** What the calendar of any birth year and month looks like. *)
Lemma calendar_facts birthYear birthMonth :
  1 <= birthMonth <= 12 ->
  let s := calendar birthYear birthMonth in
  List.length (shape_keys s) = monthCount_of birthMonth /\
  shape_first s = Some (birthYear, birthMonth) /\
  shape_last s = Some (birthYear + maxAge, lastMonth_of birthMonth) /\
  last_opt (shape_keys s) = Some (birthYear + maxAge, lastMonth_of birthMonth) /\
  exists rest,
    shape_keys s = (birthYear, birthMonth) :: rest /\
    Forall (key_lt (birthYear, birthMonth)) rest.
Proof.
  intros Hm s. subst s.
  pose proof (Z.mod_pos_bound birthYear 10 ltac:(lia)) as Hr.
  pose proof (Z.div_mod birthYear 10 ltac:(lia)) as Hq.
  set (r := birthYear mod 10) in *. set (q := birthYear / 10) in *.
  replace birthYear with (r + q * 10) by lia.
  rewrite calendar_shift, shape_keys_shift, shape_first_shift, shape_last_shift.
  pose proof (calendar_check_true r birthMonth Hr Hm) as H.
  unfold calendar_check in H. cbv zeta in H.
  apply andb_prop in H; destruct H as [H H3].
  apply andb_prop in H; destruct H as [H H0].
  apply andb_prop in H; destruct H as [H H1].
  apply andb_prop in H; destruct H as [H H2].
  apply Nat.eqb_eq in H.
  apply opt_key_eqb_eq in H2, H1, H0.
  rewrite length_map, last_opt_map, H, H2, H1, H0.
  unfold shift_key. simpl.
  replace (r + maxAge + q * 10) with (r + q * 10 + maxAge) by lia.
  repeat split.
  destruct (shape_keys (calendar r birthMonth)) as [|k rest]; [discriminate|].
  apply andb_prop in H3. destruct H3 as [Hk Hrest].
  apply key_eqb_eq in Hk. subst k.
  exists (map (shift_key (q * 10)) rest). split; [reflexivity|].
  apply Forall_forall. intros k Hin.
  apply in_map_iff in Hin. destruct Hin as [k0 [<- Hin]].
  rewrite forallb_forall in Hrest.
  apply (key_lt_shift (q * 10) (r, birthMonth) k0).
  apply key_ltb_lt, Hrest, Hin.
Qed.

(** ** The builder on a birth date *)

(** C1, as the claim states it, fails: the structure built for the birth
    date "2000-06-15" does not have 961 months, and the count is not the
    same for every birth month: a January birth date gives another one. *)
Lemma initiate_month_count_not_961 :
  List.length
    (all_months (fst (initiate Sample.env (Some "2000-06-15") Sample.world0)))
  <> 961%nat /\
  List.length
    (all_months (fst (initiate Sample.env (Some "1990-01-31") Sample.world0)))
  <> List.length
    (all_months (fst (initiate Sample.env (Some "2000-06-15") Sample.world0))).
Proof.
  split; apply Nat.eqb_neq; vm_compute; reflexivity.
Qed.

(** C1, amended.  For every valid birth date the number of Month nodes of
    the structure [initiate] returns is 80*12 = 960 when the birth month is
    February to December, and 81*12 = 972 when it is January (the final
    year then runs through December). *)
Theorem initiate_month_count env s birthYear birthMonth w :
  birth_date env s birthYear birthMonth ->
  let lifeHistory := fst (initiate env (Some s) w) in
  (2 <= birthMonth -> List.length (all_months lifeHistory) = 960%nat) /\
  (birthMonth = 1 -> List.length (all_months lifeHistory) = 972%nat).
Proof.
  intros Hb lifeHistory. subst lifeHistory.
  rewrite all_months_count, month_keys_shape, (shape_initiate _ _ _ _ _ Hb).
  destruct Hb as [_ [Hm _]].
  destruct (calendar_facts birthYear birthMonth Hm) as [Hlen _].
  rewrite Hlen. unfold monthCount_of.
  split; intro H.
  - destruct (Z.eqb_spec birthMonth 1); [lia | reflexivity].
  - subst birthMonth. reflexivity.
Qed.

Lemma initiate_month_count_witness :
  List.length
    (all_months (fst (initiate Sample.env (Some "2000-06-15") Sample.world0)))
  = 960%nat.
Proof.
  assert (Hb : birth_date Sample.env "2000-06-15" 2000 6).
  { split; [discriminate|]. split; [lia|]. exists 15. reflexivity. }
  assert (Hm : 2 <= 6) by lia.
  exact (proj1 (initiate_month_count Sample.env "2000-06-15" 2000 6
                  Sample.world0 Hb) Hm).
Defined.

(** C2.  For every valid birth date, the last month of the last year of the
    last decade (which is also the last month of the whole sequence) is
    month [birthMonth - 1] of year [birthYear + 80] when the birth month is
    not January, and December of year [birthYear + 80] when it is. *)
Theorem initiate_last_month env s birthYear birthMonth w :
  birth_date env s birthYear birthMonth ->
  let lifeHistory := fst (initiate env (Some s) w) in
  (2 <= birthMonth ->
     last_month lifeHistory = Some (birthYear + 80, birthMonth - 1) /\
     last_opt (month_keys lifeHistory) = Some (birthYear + 80, birthMonth - 1)) /\
  (birthMonth = 1 ->
     last_month lifeHistory = Some (birthYear + 80, 12) /\
     last_opt (month_keys lifeHistory) = Some (birthYear + 80, 12)).
Proof.
  intros Hb lifeHistory. subst lifeHistory.
  rewrite last_month_shape, month_keys_shape, (shape_initiate _ _ _ _ _ Hb).
  destruct Hb as [_ [Hm _]].
  destruct (calendar_facts birthYear birthMonth Hm) as [_ [_ [Hl [Hk _]]]].
  rewrite Hl, Hk. unfold lastMonth_of, Js.or_num, maxAge.
  split; intro H.
  - destruct (Z.eqb_spec (birthMonth - 1) 0); [lia|]. split; reflexivity.
  - subst birthMonth. split; reflexivity.
Qed.

Lemma initiate_last_month_witness :
  last_month (fst (initiate Sample.env (Some "2000-06-15") Sample.world0))
  = Some (2000 + 80, 6 - 1) /\
  last_month (fst (initiate Sample.env (Some "1990-01-31") Sample.world0))
  = Some (1990 + 80, 12).
Proof.
  assert (Hb : birth_date Sample.env "2000-06-15" 2000 6).
  { split; [discriminate|]. split; [lia|]. exists 15. reflexivity. }
  assert (Hj : birth_date Sample.env "1990-01-31" 1990 1).
  { split; [discriminate|]. split; [lia|]. exists 31. reflexivity. }
  assert (Hm : 2 <= 6) by lia.
  split.
  - exact (proj1 (proj1 (initiate_last_month Sample.env "2000-06-15" 2000 6
                           Sample.world0 Hb) Hm)).
  - exact (proj1 (proj2 (initiate_last_month Sample.env "1990-01-31" 1990 1
                           Sample.world0 Hj) eq_refl)).
Defined.

(** C3.  For every valid birth date, the first month of the first year of
    the first decade is month [birthMonth] of year [birthYear]; it heads the
    sequence of all months, and every other month of the sequence is
    strictly later in (year, month) order. *)
Theorem initiate_first_month env s birthYear birthMonth w :
  birth_date env s birthYear birthMonth ->
  let lifeHistory := fst (initiate env (Some s) w) in
  first_month lifeHistory = Some (birthYear, birthMonth) /\
  exists rest,
    month_keys lifeHistory = (birthYear, birthMonth) :: rest /\
    Forall (key_lt (birthYear, birthMonth)) rest.
Proof.
  intros Hb lifeHistory. subst lifeHistory.
  rewrite first_month_shape, month_keys_shape, (shape_initiate _ _ _ _ _ Hb).
  destruct Hb as [_ [Hm _]].
  destruct (calendar_facts birthYear birthMonth Hm) as [_ [Hf [_ [_ Hrest]]]].
  split; [exact Hf | exact Hrest].
Qed.

Lemma initiate_first_month_witness :
  first_month (fst (initiate Sample.env (Some "2000-06-15") Sample.world0))
  = Some (2000, 6).
Proof.
  assert (Hb : birth_date Sample.env "2000-06-15" 2000 6).
  { split; [discriminate|]. split; [lia|]. exists 15. reflexivity. }
  exact (proj1 (initiate_first_month Sample.env "2000-06-15" 2000 6
                  Sample.world0 Hb)).
Defined.

(** ** The mover: both passes as one update of months *)

Lemma with_events_same m : with_events m (events m) = m.
Proof. destruct m; reflexivity. Qed.

Lemma with_months_same y : with_months y (months y) = y.
Proof. destruct y; reflexivity. Qed.

Lemma with_years_same d : with_years d (years d) = d.
Proof. destruct d; reflexivity. Qed.

Lemma map_fixed {A} (f : A -> A) (l : list A) :
  (forall x, In x l -> f x = x) -> map f l = l.
Proof.
  induction l as [|a l IH]; simpl; intro H; [reflexivity|].
  rewrite H by (left; reflexivity). f_equal. apply IH.
  intros x Hx. apply H. right. exact Hx.
Qed.

Lemma guarded_off decadeId yearId monthId f di yi m :
  String.eqb di decadeId && String.eqb yi yearId = false ->
  guarded decadeId yearId monthId f di yi m = m.
Proof. unfold guarded. intros ->. reflexivity. Qed.

(** One pass of [moveEvent] rebuilds the structure month by month. *)
Lemma update_months_spec decadeId yearId monthId f lifeHistory :
  update_months decadeId yearId monthId f lifeHistory
  = map_months (guarded decadeId yearId monthId f) lifeHistory.
Proof.
  unfold update_months, map_months. apply map_ext. intro d.
  destruct (String.eqb (decade_id d) decadeId) eqn:Ed; simpl.
  - f_equal. apply map_ext. intro y.
    destruct (String.eqb (year_id y) yearId) eqn:Ey; simpl.
    + f_equal. apply map_ext. intro m.
      unfold guarded. rewrite Ed, Ey. simpl.
      destruct (String.eqb (month_id m) monthId); reflexivity.
    + rewrite map_fixed; [now rewrite with_months_same|].
      intros m _. apply guarded_off. rewrite Ed, Ey. reflexivity.
  - rewrite map_fixed; [now rewrite with_years_same|].
    intros y _. rewrite map_fixed; [now rewrite with_months_same|].
    intros m _. apply guarded_off. rewrite Ed. reflexivity.
Qed.

Lemma map_months_compose h1 h2 lifeHistory :
  map_months h2 (map_months h1 lifeHistory)
  = map_months (fun di yi m => h2 di yi (h1 di yi m)) lifeHistory.
Proof.
  unfold map_months. rewrite map_map. apply map_ext. intro d.
  unfold with_years. simpl. f_equal.
  rewrite map_map. apply map_ext. intro y.
  unfold with_months. simpl. f_equal.
  now rewrite map_map.
Qed.

Lemma map_months_same lifeHistory :
  map_months (fun _ _ m => m) lifeHistory = lifeHistory.
Proof.
  unfold map_months. apply map_fixed. intros d _.
  rewrite map_fixed; [apply with_years_same|].
  intros y _. rewrite map_id. apply with_months_same.
Qed.

Lemma moveEvent_success env event lifeHistory sourceMonth targetMonth w
    sourceEntities targetEntities eventToMove :
  findEntities lifeHistory (month_id sourceMonth) = Some sourceEntities ->
  findEntities lifeHistory (month_id targetMonth) = Some targetEntities ->
  find (fun e => String.eqb (event_id e) (event_id event))
       (events (ent_month sourceEntities)) = Some eventToMove ->
  moveEvent env event lifeHistory sourceMonth targetMonth w
  = (map_months
       (fun di yi m =>
          guarded (decade_id (ent_decade targetEntities))
            (year_id (ent_year targetEntities)) (month_id targetMonth)
            (with_event
               (with_dates eventToMove
                  (format_YYYY_MM_DD
                     (dayjs env (month_id (ent_month targetEntities) ++ "-15")))
                  (timestamp env (clock_reads w))))
            di yi
            (guarded (decade_id (ent_decade sourceEntities))
               (year_id (ent_year sourceEntities)) (month_id sourceMonth)
               (without_event (event_id event)) di yi m))
       lifeHistory,
     mkWorld (uuids_drawn w) (S (clock_reads w)) (console w)).
Proof.
  intros Hs Ht He. unfold moveEvent. rewrite Hs, Ht, He.
  unfold bind, dayjs_now_format, ret. cbv beta iota zeta.
  rewrite !update_months_spec, map_months_compose. reflexivity.
Qed.

(** What [moveEvent] returns: its input, or its input with the months
    rebuilt by the two passes. *)
Lemma moveEvent_cases env event lifeHistory sourceMonth targetMonth w :
  fst (moveEvent env event lifeHistory sourceMonth targetMonth w) = lifeHistory
  \/ exists sourceEntities targetEntities eventToMove,
      findEntities lifeHistory (month_id sourceMonth) = Some sourceEntities /\
      findEntities lifeHistory (month_id targetMonth) = Some targetEntities /\
      find (fun e => String.eqb (event_id e) (event_id event))
           (events (ent_month sourceEntities)) = Some eventToMove /\
      fst (moveEvent env event lifeHistory sourceMonth targetMonth w)
      = map_months
          (fun di yi m =>
             guarded (decade_id (ent_decade targetEntities))
               (year_id (ent_year targetEntities)) (month_id targetMonth)
               (with_event
                  (with_dates eventToMove
                     (format_YYYY_MM_DD
                        (dayjs env
                           (month_id (ent_month targetEntities) ++ "-15")))
                     (timestamp env (clock_reads w))))
               di yi
               (guarded (decade_id (ent_decade sourceEntities))
                  (year_id (ent_year sourceEntities)) (month_id sourceMonth)
                  (without_event (event_id event)) di yi m))
          lifeHistory.
Proof.
  destruct (findEntities lifeHistory (month_id sourceMonth)) as [se|] eqn:Es;
    [|left; unfold moveEvent; rewrite Es; reflexivity].
  destruct (findEntities lifeHistory (month_id targetMonth)) as [te|] eqn:Et;
    [|left; unfold moveEvent; rewrite Es, Et; reflexivity].
  destruct (find (fun e => String.eqb (event_id e) (event_id event))
              (events (ent_month se))) as [e|] eqn:Ef;
    [|left; unfold moveEvent; rewrite Es, Et, Ef; reflexivity].
  right. exists se, te, e.
  split; [reflexivity|]. split; [reflexivity|]. split; [exact Ef|].
  rewrite (moveEvent_success _ _ _ _ _ _ _ _ _ Es Et Ef). reflexivity.
Qed.

(** ** The mover: what stays *)

Lemma Forall2_map_self {A B} (R : A -> B -> Prop) (F : A -> B) (l : list A) :
  (forall x, In x l -> R x (F x)) -> Forall2 R l (map F l).
Proof.
  induction l as [|a l IH]; simpl; intro H; constructor.
  - apply H. left. reflexivity.
  - apply IH. intros x Hx. apply H. right. exact Hx.
Qed.

Lemma existsb_false_in {A} (p : A -> bool) (l : list A) (x : A) :
  existsb p l = false -> In x l -> p x = false.
Proof.
  intros H Hx. destruct (p x) eqn:E; [|reflexivity].
  rewrite <- H. symmetry. apply existsb_exists. exists x. split; assumption.
Qed.

Lemma guarded_ids decadeId yearId monthId f di yi m :
  month_id (guarded decadeId yearId monthId f di yi m) = month_id m /\
  month (guarded decadeId yearId monthId f di yi m) = month m.
Proof. unfold guarded. destruct (_ && _); split; reflexivity. Qed.

Lemma guarded_other decadeId yearId monthId f di yi m :
  String.eqb (month_id m) monthId = false ->
  guarded decadeId yearId monthId f di yi m = m.
Proof.
  unfold guarded. intros ->. rewrite andb_false_r. reflexivity.
Qed.

(** Rebuilding months with a function that respects the frame of every
    month respects the frame of every year and decade. *)
Lemma frame_map_months src tgt h lifeHistory :
  (forall di yi m, month_frame src tgt m (h di yi m)) ->
  Forall2 (decade_frame src tgt) lifeHistory (map_months h lifeHistory).
Proof.
  intro Hh. unfold map_months. apply Forall2_map_self. intros d _.
  assert (Hm : forall y m, month_on_path src tgt m = false ->
                           h (decade_id d) (year_id y) m = m).
  { intros y m Hoff. now apply (Hh (decade_id d) (year_id y) m). }
  assert (Hy : forall y, year_on_path src tgt y = false ->
            with_months y (map (h (decade_id d) (year_id y)) (months y)) = y).
  { intros y Hoff. rewrite map_fixed; [apply with_months_same|].
    intros m Hin. apply Hm. apply (existsb_false_in _ _ _ Hoff Hin). }
  unfold decade_frame. simpl.
  split; [reflexivity|]. split; [reflexivity|]. split.
  - intro Hoff. rewrite map_fixed; [apply with_years_same|].
    intros y Hin. apply Hy. apply (existsb_false_in _ _ _ Hoff Hin).
  - apply Forall2_map_self. intros y _.
    unfold year_frame. simpl.
    split; [reflexivity|]. split; [reflexivity|]. split.
    + apply Hy.
    + apply Forall2_map_self. intros m _. apply Hh.
Qed.

(** C7.  After [moveEvent] the structure has the decades, years and months
    of its input, in the same places and with the same ids and numbers, and
    every decade, year and month that is not on the path to the source
    month or to the target month is the node of the input itself.  This
    holds for every call, in particular for every successful one. *)
Theorem moveEvent_frame env event lifeHistory sourceMonth targetMonth w :
  Forall2 (decade_frame (month_id sourceMonth) (month_id targetMonth))
    lifeHistory
    (fst (moveEvent env event lifeHistory sourceMonth targetMonth w)).
Proof.
  destruct (moveEvent_cases env event lifeHistory sourceMonth targetMonth w)
    as [-> | [se [te [e [_ [_ [_ ->]]]]]]].
  - rewrite <- (map_months_same lifeHistory) at 2.
    apply frame_map_months. intros _ _ m.
    split; [reflexivity|]. split; [reflexivity|]. reflexivity.
  - apply frame_map_months. intros di yi m.
    unfold month_frame, month_on_path.
    repeat rewrite (proj1 (guarded_ids _ _ _ _ _ _ _)).
    repeat rewrite (proj2 (guarded_ids _ _ _ _ _ _ _)).
    split; [reflexivity|]. split; [reflexivity|].
    intro Hoff. apply orb_false_elim in Hoff. destruct Hoff as [Hs Ht].
    rewrite (guarded_other _ _ (month_id sourceMonth)) by exact Hs.
    apply guarded_other. exact Ht.
Qed.

(** ** The mover: looking months up *)

Lemma find_month_app id l1 l2 :
  find_month id (l1 ++ l2)
  = match find_month id l1 with
    | Some m => Some m
    | None => find_month id l2
    end.
Proof.
  induction l1 as [|m l1 IH]; simpl; [reflexivity|].
  destruct (String.eqb (month_id m) id); [reflexivity | exact IH].
Qed.

Lemma find_year_month id d ys :
  option_map ent_month (find_year id d ys) = find_month id (flat_map months ys).
Proof.
  induction ys as [|y ys IH]; simpl; [reflexivity|].
  rewrite find_month_app.
  destruct (find_month id (months y)); [reflexivity | exact IH].
Qed.

(** The month [findEntities] returns is the first month of the structure,
    in document order, whose id is the one looked for. *)
Lemma findEntities_month lifeHistory id :
  option_map ent_month (findEntities lifeHistory id)
  = find_month id (all_months lifeHistory).
Proof.
  unfold all_months.
  induction lifeHistory as [|d l IH]; simpl; [reflexivity|].
  rewrite find_month_app. unfold decade_months at 1.
  rewrite <- (find_year_month id d).
  destruct (find_year id d (years d)); [reflexivity | exact IH].
Qed.

Lemma find_month_none id l :
  find_month id l = None <-> ~ In id (map month_id l).
Proof.
  induction l as [|m l IH]; simpl.
  - split; [intros _ H; exact H | reflexivity].
  - destruct (String.eqb_spec (month_id m) id) as [E|E].
    + split; [discriminate | intro H; exfalso; apply H; left; exact E].
    + rewrite IH. split; [intros H [H'|H']; [exact (E H') | exact (H H')]
                         | intros H H'; apply H; right; exact H'].
Qed.

Lemma find_month_some id l m :
  find_month id l = Some m -> In m l /\ month_id m = id.
Proof.
  induction l as [|a l IH]; simpl; [discriminate|].
  destruct (String.eqb_spec (month_id a) id) as [E|E].
  - intros [= <-]. split; [left; reflexivity | exact E].
  - intro H. destruct (IH H) as [Hin Hid]. split; [right; exact Hin | exact Hid].
Qed.

Lemma findEntities_none lifeHistory id :
  ~ In id (map month_id (all_months lifeHistory)) ->
  findEntities lifeHistory id = None.
Proof.
  intro H. apply find_month_none in H.
  rewrite <- findEntities_month in H.
  destruct (findEntities lifeHistory id); [discriminate H | reflexivity].
Qed.

(** ** The mover: lookup misses *)

(** C4.  When the source month id or the target month id is the id of no
    month of the structure, or the source month is found (the first month
    with the source id) but holds no event with the id of the given event,
    [moveEvent] returns its [lifeHistory] input; it reads neither the clock
    nor an identifier, and reports the condition on the console. *)
Theorem moveEvent_lookup_miss env event lifeHistory sourceMonth targetMonth w :
  (~ In (month_id sourceMonth) (map month_id (all_months lifeHistory)) \/
   ~ In (month_id targetMonth) (map month_id (all_months lifeHistory)) \/
   exists m,
     find_month (month_id sourceMonth) (all_months lifeHistory) = Some m /\
     forall e, In e (events m) -> event_id e <> event_id event) ->
  fst (moveEvent env event lifeHistory sourceMonth targetMonth w) = lifeHistory
  /\ exists notice,
       snd (moveEvent env event lifeHistory sourceMonth targetMonth w)
       = mkWorld (uuids_drawn w) (clock_reads w) (console w ++ [notice]).
Proof.
  intro H. unfold moveEvent.
  destruct H as [H | [H | [m [Hm He]]]].
  - rewrite (findEntities_none _ _ H).
    split; [reflexivity | eexists; reflexivity].
  - rewrite (findEntities_none _ _ H).
    destruct (findEntities lifeHistory (month_id sourceMonth));
      (split; [reflexivity | eexists; reflexivity]).
  - rewrite <- findEntities_month in Hm.
    destruct (findEntities lifeHistory (month_id sourceMonth)) as [se|];
      [|discriminate Hm].
    simpl in Hm. injection Hm as Hm. rewrite Hm.
    destruct (findEntities lifeHistory (month_id targetMonth)) as [te|];
      [|split; [reflexivity | eexists; reflexivity]].
    destruct (find _ (events m)) as [e|] eqn:Ef;
      [|split; [reflexivity | eexists; reflexivity]].
    apply find_some in Ef. destruct Ef as [Hin Hid].
    apply String.eqb_eq in Hid. exfalso. exact (He e Hin Hid).
Qed.

Lemma moveEvent_lookup_miss_witness :
  fst (moveEvent Sample.env Sample.note Sample.history Sample.stray
         Sample.july Sample.world0) = Sample.history.
Proof.
  apply (moveEvent_lookup_miss Sample.env Sample.note Sample.history
           Sample.stray Sample.july Sample.world0).
  left. simpl. intros [H|[H|[H|[H|H]]]]; try discriminate H. exact H.
Defined.

(** ** The mover: unique month ids *)

Lemma NoDup_app_disjoint {A} (l1 l2 : list A) (x : A) :
  NoDup (l1 ++ l2) -> In x l1 -> In x l2 -> False.
Proof.
  induction l1 as [|a l1 IH]; simpl; intros ND H1 H2; [exact H1|].
  inversion ND as [|? ? Hnot ND']; subst.
  destruct H1 as [<-|H1].
  - apply Hnot. apply in_or_app. right. exact H2.
  - exact (IH ND' H1 H2).
Qed.

Section Owner.

Context {A B : Type} (f : A -> list B).

(** In a duplicate-free concatenation, an element has one owner. *)
Lemma NoDup_flat_map_owner (l : list A) (a b : A) (x : B) :
  NoDup (flat_map f l) -> In a l -> In b l -> In x (f a) -> In x (f b) ->
  a = b.
Proof.
  induction l as [|c l IH]; simpl; intros ND Ha Hb Hxa Hxb; [contradiction|].
  destruct Ha as [<-|Ha], Hb as [<-|Hb].
  - reflexivity.
  - exfalso. apply (NoDup_app_disjoint _ _ x ND Hxa).
    apply in_flat_map. exists b. split; assumption.
  - exfalso. apply (NoDup_app_disjoint _ _ x ND Hxb).
    apply in_flat_map. exists a. split; assumption.
  - apply IH; try assumption. exact (NoDup_app_remove_l _ _ ND).
Qed.

Lemma NoDup_flat_map_part (l : list A) (a : A) :
  NoDup (flat_map f l) -> In a l -> NoDup (f a).
Proof.
  induction l as [|c l IH]; simpl; intros ND Ha; [contradiction|].
  destruct Ha as [<-|Ha].
  - exact (NoDup_app_remove_r _ _ ND).
  - apply IH; [exact (NoDup_app_remove_l _ _ ND) | exact Ha].
Qed.

End Owner.

Lemma map_flat_map {A B C} (g : B -> C) (f : A -> list B) (l : list A) :
  map g (flat_map f l) = flat_map (fun a => map g (f a)) l.
Proof.
  induction l as [|a l IH]; simpl; [reflexivity|].
  now rewrite map_app, IH.
Qed.

Lemma find_year_sound id d ys found :
  find_year id d ys = Some found ->
  ent_decade found = d /\ In (ent_year found) ys /\
  In (ent_month found) (months (ent_year found)) /\
  month_id (ent_month found) = id.
Proof.
  induction ys as [|y ys IH]; simpl; [discriminate|].
  destruct (find_month id (months y)) as [m|] eqn:Em.
  - intros [= <-]. simpl. apply find_month_some in Em.
    destruct Em as [Hin Hid].
    split; [reflexivity|]. split; [left; reflexivity|]. split; assumption.
  - intro H. destruct (IH H) as [Hd [Hy Hm]].
    split; [exact Hd|]. split; [right; exact Hy | exact Hm].
Qed.

Lemma findEntities_sound lifeHistory id found :
  findEntities lifeHistory id = Some found ->
  In (ent_decade found) lifeHistory /\
  In (ent_year found) (years (ent_decade found)) /\
  In (ent_month found) (months (ent_year found)) /\
  month_id (ent_month found) = id.
Proof.
  induction lifeHistory as [|d l IH]; simpl; [discriminate|].
  destruct (find_year id d (years d)) as [f|] eqn:Ey.
  - intros [= <-]. apply find_year_sound in Ey.
    destruct Ey as [Hd [Hy Hm]]. rewrite Hd.
    split; [left; reflexivity|]. split; assumption.
  - intro H. destruct (IH H) as [Hd Hrest].
    split; [right; exact Hd | exact Hrest].
Qed.

(** With unique month ids, every month carrying the id that was looked up
    sits under the decade and the year that [findEntities] returned. *)
Lemma unique_owner lifeHistory id found d y m :
  NoDup (map month_id (all_months lifeHistory)) ->
  findEntities lifeHistory id = Some found ->
  In d lifeHistory -> In y (years d) -> In m (months y) -> month_id m = id ->
  d = ent_decade found /\ y = ent_year found.
Proof.
  intros ND Hf Hd Hy Hm Hid.
  destruct (findEntities_sound _ _ _ Hf) as [Hd0 [Hy0 [Hm0 Hid0]]].
  unfold all_months in ND. rewrite map_flat_map in ND.
  assert (Hin : forall y' m', In y' (years (ent_decade found)) ->
            In m' (months y') -> In (month_id m') (map month_id (months y'))).
  { intros y' m' _ H. apply in_map. exact H. }
  assert (Hown : forall d' y' m', In y' (years d') -> In m' (months y') ->
            In (month_id m') (map month_id (decade_months d'))).
  { intros d' y' m' H1 H2. apply in_map. unfold decade_months.
    apply in_flat_map. exists y'. split; assumption. }
  assert (Ed : d = ent_decade found).
  { apply (NoDup_flat_map_owner _ lifeHistory d (ent_decade found) id ND Hd Hd0).
    - rewrite <- Hid. exact (Hown d y m Hy Hm).
    - rewrite <- Hid0. exact (Hown _ _ _ Hy0 Hm0). }
  split; [exact Ed|]. subst d.
  pose proof (NoDup_flat_map_part _ _ _ ND Hd0) as NDd.
  unfold decade_months in NDd. rewrite map_flat_map in NDd.
  apply (NoDup_flat_map_owner _ (years (ent_decade found)) y (ent_year found)
           id NDd Hy Hy0).
  - rewrite <- Hid. apply in_map. exact Hm.
  - rewrite <- Hid0. apply in_map. exact Hm0.
Qed.

Lemma guarded_on_month lifeHistory id found f d y m :
  NoDup (map month_id (all_months lifeHistory)) ->
  findEntities lifeHistory id = Some found ->
  In d lifeHistory -> In y (years d) -> In m (months y) ->
  forall m', month_id m' = month_id m ->
    guarded (decade_id (ent_decade found)) (year_id (ent_year found)) id f
      (decade_id d) (year_id y) m'
    = on_month id f m'.
Proof.
  intros ND Hf Hd Hy Hm m' Hid. unfold guarded, on_month.
  destruct (String.eqb_spec (month_id m') id) as [E|E].
  - rewrite Hid in E.
    destruct (unique_owner _ _ _ d y m ND Hf Hd Hy Hm E) as [-> ->].
    rewrite !String.eqb_refl. reflexivity.
  - rewrite andb_false_r. reflexivity.
Qed.

Lemma all_months_map_months h g lifeHistory :
  (forall d y m, In d lifeHistory -> In y (years d) -> In m (months y) ->
     h (decade_id d) (year_id y) m = g m) ->
  all_months (map_months h lifeHistory) = map g (all_months lifeHistory).
Proof.
  unfold all_months, map_months.
  induction lifeHistory as [|d l IH]; simpl; intro H; [reflexivity|].
  rewrite map_app. f_equal.
  - unfold decade_months. simpl.
    assert (Hd : forall y m, In y (years d) -> In m (months y) ->
              h (decade_id d) (year_id y) m = g m).
    { intros y m. apply H. left. reflexivity. }
    revert Hd. generalize (decade_id d) as di.
    induction (years d) as [|y ys IHy]; simpl; intros di Hd; [reflexivity|].
    rewrite map_app. f_equal.
    + apply map_ext_in. intros m Hm. apply Hd; [left; reflexivity | exact Hm].
    + apply IHy. intros y' m' Hy'. apply Hd. right. exact Hy'.
  - apply IH. intros d' y m Hd'. apply H. right. exact Hd'.
Qed.

Lemma on_month_id id f m : month_id (on_month id f m) = month_id m.
Proof. unfold on_month. destruct (String.eqb _ _); reflexivity. Qed.

Lemma find_month_map g id l :
  (forall m, month_id (g m) = month_id m) ->
  find_month id (map g l) = option_map g (find_month id l).
Proof.
  intro Hg. induction l as [|m l IH]; simpl; [reflexivity|].
  rewrite Hg. destruct (String.eqb (month_id m) id); [reflexivity | exact IH].
Qed.

Lemma find_month_unique l m :
  NoDup (map month_id l) -> In m l -> find_month (month_id m) l = Some m.
Proof.
  induction l as [|a l IH]; simpl; intros ND Hin; [contradiction|].
  inversion ND as [|? ? Hnot ND']; subst.
  destruct Hin as [<-|Hin].
  - rewrite String.eqb_refl. reflexivity.
  - destruct (String.eqb_spec (month_id a) (month_id m)) as [E|E].
    + exfalso. apply Hnot. rewrite E. apply in_map. exact Hin.
    + exact (IH ND' Hin).
Qed.

Lemma findEntities_unique lifeHistory m :
  NoDup (map month_id (all_months lifeHistory)) ->
  In m (all_months lifeHistory) ->
  exists found,
    findEntities lifeHistory (month_id m) = Some found /\ ent_month found = m.
Proof.
  intros ND Hin.
  pose proof (find_month_unique _ _ ND Hin) as H.
  rewrite <- findEntities_month in H.
  destruct (findEntities lifeHistory (month_id m)) as [found|];
    [|discriminate H].
  exists found. split; [reflexivity|]. simpl in H. congruence.
Qed.

(** ** The mover: a successful move *)

Lemma find_unique_id e evs :
  In e evs -> count_id (event_id e) evs = 1%nat ->
  find (fun x => String.eqb (event_id x) (event_id e)) evs = Some e.
Proof.
  unfold count_id.
  induction evs as [|a evs IH]; simpl; intros Hin Hc; [contradiction|].
  destruct (String.eqb_spec (event_id a) (event_id e)) as [E|E].
  - simpl in Hc. injection Hc as Hc.
    destruct Hin as [->|Hin]; [reflexivity|].
    exfalso.
    assert (Hf : In e (filter (fun x => String.eqb (event_id x) (event_id e))
                         evs)).
    { apply filter_In. split; [exact Hin | apply String.eqb_refl]. }
    destruct (filter _ evs); [exact Hf | discriminate Hc].
  - destruct Hin as [->|Hin]; [exfalso; apply E; reflexivity|].
    exact (IH Hin Hc).
Qed.

Lemma without_event_length eventId evs :
  (List.length (without_event eventId evs) + count_id eventId evs
   = List.length evs)%nat.
Proof.
  unfold without_event, count_id.
  induction evs as [|a evs IH]; simpl; [reflexivity|].
  destruct (String.eqb (event_id a) eventId); simpl; lia.
Qed.

Lemma last_opt_snoc {A} (l : list A) (x : A) : last_opt (l ++ [x]) = Some x.
Proof.
  induction l as [|a l IH]; simpl; [reflexivity|].
  destruct (l ++ [x])%list eqn:E; [destruct l; discriminate E | exact IH].
Qed.

(** The months of the structure after a successful move, when month ids are
    unique: the event is filtered out of the month with the source id, and
    the updated copy is appended to the month with the target id. *)
Lemma moveEvent_months env event lifeHistory sourceMonth targetMonth w :
  NoDup (map month_id (all_months lifeHistory)) ->
  In sourceMonth (all_months lifeHistory) ->
  In targetMonth (all_months lifeHistory) ->
  In event (events sourceMonth) ->
  count_id (event_id event) (events sourceMonth) = 1%nat ->
  all_months (fst (moveEvent env event lifeHistory sourceMonth targetMonth w))
  = map (fun m =>
           on_month (month_id targetMonth)
             (with_event
                (with_dates event
                   (format_YYYY_MM_DD (dayjs env (month_id targetMonth ++ "-15")))
                   (timestamp env (clock_reads w))))
             (on_month (month_id sourceMonth)
                (without_event (event_id event)) m))
        (all_months lifeHistory).
Proof.
  intros ND Hs Ht He Hc.
  destruct (findEntities_unique _ _ ND Hs) as [se [Hse Ese]].
  destruct (findEntities_unique _ _ ND Ht) as [te [Hte Ete]].
  pose proof (find_unique_id _ _ He Hc) as Hfind.
  rewrite <- Ese in Hfind.
  rewrite (moveEvent_success _ _ _ _ _ _ _ _ _ Hse Hte Hfind). simpl fst.
  rewrite Ete.
  apply all_months_map_months. intros d y m Hd Hy Hm.
  rewrite (guarded_on_month _ _ _ _ d y m ND Hse Hd Hy Hm m eq_refl).
  apply (guarded_on_month _ _ _ _ d y m ND Hte Hd Hy Hm).
  apply on_month_id.
Qed.

Lemma format_fifteenth y mo :
  format_YYYY_MM_DD (Some (mkDayjs y (mo - 1) 15))
  = Js.padStart0 4 (Js.String_of y) ++ "-"
    ++ Js.padStart0 2 (Js.String_of mo) ++ "-15".
Proof.
  unfold format_YYYY_MM_DD. simpl dj_year. simpl dj_month. simpl dj_date.
  replace (mo - 1 + 1) with mo by lia. reflexivity.
Qed.

(** C5.  In a structure whose month ids are unique, with distinct months A
    and B and an event that is in A and is A's only event with its id,
    [moveEvent(event, A, B)] returns a structure in which A has lost exactly
    that event (one entry fewer), B has gained exactly one entry, the last,
    which is the event with its two date fields rewritten; when dayjs reads
    B's id followed by "-15" as the 15th of month [mo] of year [y], its
    [event_date] is that day in the form YYYY-MM-DD. *)
Theorem moveEvent_between_months env event lifeHistory A B w y mo :
  NoDup (map month_id (all_months lifeHistory)) ->
  In A (all_months lifeHistory) ->
  In B (all_months lifeHistory) ->
  month_id A <> month_id B ->
  In event (events A) ->
  count_id (event_id event) (events A) = 1%nat ->
  dayjs env (month_id B ++ "-15") = Some (mkDayjs y (mo - 1) 15) ->
  let result := fst (moveEvent env event lifeHistory A B w) in
  let moved :=
    with_dates event
      (Js.padStart0 4 (Js.String_of y) ++ "-"
       ++ Js.padStart0 2 (Js.String_of mo) ++ "-15")
      (timestamp env (clock_reads w)) in
  exists A' B',
    find_month (month_id A) (all_months result) = Some A' /\
    find_month (month_id B) (all_months result) = Some B' /\
    events A' = without_event (event_id event) (events A) /\
    S (List.length (events A')) = List.length (events A) /\
    events B' = (events B ++ [moved])%list /\
    List.length (events B') = S (List.length (events B)) /\
    last_opt (events B') = Some moved.
Proof.
  intros ND HA HB Hne He Hc Hd result moved. subst result.
  rewrite (moveEvent_months _ _ _ _ _ _ ND HA HB He Hc).
  rewrite Hd, format_fifteenth. fold moved.
  rewrite !find_month_map by (intro m; now rewrite !on_month_id).
  rewrite (find_month_unique _ _ ND HA), (find_month_unique _ _ ND HB).
  simpl option_map.
  assert (EAB : String.eqb (month_id A) (month_id B) = false)
    by now apply String.eqb_neq.
  assert (EBA : String.eqb (month_id B) (month_id A) = false)
    by (apply String.eqb_neq; congruence).
  assert (EA : on_month (month_id B) (with_event moved)
                 (on_month (month_id A) (without_event (event_id event)) A)
               = with_events A (without_event (event_id event) (events A))).
  { unfold on_month at 2. rewrite String.eqb_refl.
    unfold on_month. simpl month_id. rewrite EAB. reflexivity. }
  assert (EB : on_month (month_id B) (with_event moved)
                 (on_month (month_id A) (without_event (event_id event)) B)
               = with_events B (with_event moved (events B))).
  { unfold on_month at 2. rewrite EBA.
    unfold on_month. rewrite String.eqb_refl. reflexivity. }
  rewrite EA, EB.
  eexists. eexists. split; [reflexivity|]. split; [reflexivity|].
  simpl events.
  split; [reflexivity|]. split.
  - pose proof (without_event_length (event_id event) (events A)). lia.
  - split; [reflexivity|]. split.
    + unfold with_event. rewrite length_app. simpl. lia.
    + apply last_opt_snoc.
Qed.

Lemma moveEvent_between_months_witness :
  exists A' B',
    find_month "2000-06"
      (all_months (fst (moveEvent Sample.env Sample.note Sample.history
                          Sample.june Sample.july Sample.world0))) = Some A' /\
    find_month "2000-07"
      (all_months (fst (moveEvent Sample.env Sample.note Sample.history
                          Sample.june Sample.july Sample.world0))) = Some B' /\
    events A' = [Sample.photo] /\
    events B' = [Sample.letter;
                 mkEvent "e1" "2000-07-15" (Some "first steps") None
                   "tick-0" "u1"].
Proof.
  destruct (moveEvent_between_months Sample.env Sample.note Sample.history
              Sample.june Sample.july Sample.world0 2000 7)
    as [A' [B' [HA [HB [HeA [_ [HeB _]]]]]]].
  - simpl. repeat constructor; simpl; intuition discriminate.
  - simpl. auto.
  - simpl. auto.
  - discriminate.
  - simpl. auto.
  - reflexivity.
  - reflexivity.
  - exists A', B'. split; [exact HA|]. split; [exact HB|].
    split; [exact HeA | exact HeB].
Defined.

Lemma same_id_same_month l a b :
  NoDup (map month_id l) -> In a l -> In b l -> month_id a = month_id b ->
  a = b.
Proof.
  intros ND Ha Hb E.
  pose proof (find_month_unique _ _ ND Ha) as H1.
  pose proof (find_month_unique _ _ ND Hb) as H2.
  rewrite E in H1. congruence.
Qed.

(** C6.  In a structure whose month ids are unique, with a month M and an
    event that is in M and is M's only event with its id,
    [moveEvent] with M as source and as target returns a structure with the
    same months in the same order, each holding as many events as before;
    M's list is its old list without the event, followed by the event with
    its id, content and user kept, its [updated_at] read from the clock, and
    (when dayjs reads M's id followed by "-15" as the 15th of month [mo] of
    year [y]) its [event_date] set to that day: the event is last in M's
    list wherever it was before. *)
Theorem moveEvent_same_month env event lifeHistory M w y mo :
  NoDup (map month_id (all_months lifeHistory)) ->
  In M (all_months lifeHistory) ->
  In event (events M) ->
  count_id (event_id event) (events M) = 1%nat ->
  dayjs env (month_id M ++ "-15") = Some (mkDayjs y (mo - 1) 15) ->
  let result := fst (moveEvent env event lifeHistory M M w) in
  let moved :=
    {| event_id := event_id event;
       event_date := Js.padStart0 4 (Js.String_of y) ++ "-"
                     ++ Js.padStart0 2 (Js.String_of mo) ++ "-15";
       event_text := event_text event;
       event_image := event_image event;
       updated_at := timestamp env (clock_reads w);
       user_id := user_id event |} in
  map month_id (all_months result) = map month_id (all_months lifeHistory) /\
  map (fun m => List.length (events m)) (all_months result)
  = map (fun m => List.length (events m)) (all_months lifeHistory) /\
  exists M',
    find_month (month_id M) (all_months result) = Some M' /\
    events M' = (without_event (event_id event) (events M) ++ [moved])%list /\
    last_opt (events M') = Some moved.
Proof.
  intros ND HM He Hc Hd result moved. subst result.
  rewrite (moveEvent_months _ _ _ _ _ _ ND HM HM He Hc).
  rewrite Hd, format_fifteenth.
  change (with_dates event _ _) with moved.
  split; [|split].
  - rewrite map_map. apply map_ext. intro m. now rewrite !on_month_id.
  - rewrite map_map. apply map_ext_in. intros m Hm.
    unfold on_month at 2.
    destruct (String.eqb_spec (month_id m) (month_id M)) as [E|E].
    + unfold on_month. simpl month_id. rewrite (proj2 (String.eqb_eq _ _) E).
      simpl events. unfold with_event. rewrite length_app. simpl.
      rewrite (same_id_same_month _ _ _ ND Hm HM E).
      pose proof (without_event_length (event_id event) (events M)). lia.
    + unfold on_month. rewrite (proj2 (String.eqb_neq _ _) E). reflexivity.
  - rewrite find_month_map by (intro m; now rewrite !on_month_id).
    rewrite (find_month_unique _ _ ND HM). simpl option_map.
    assert (EM : on_month (month_id M) (with_event moved)
                   (on_month (month_id M) (without_event (event_id event)) M)
                 = with_events M
                     (with_event moved
                        (without_event (event_id event) (events M)))).
    { unfold on_month at 2. rewrite String.eqb_refl.
      unfold on_month. simpl month_id. rewrite String.eqb_refl. reflexivity. }
    rewrite EM. eexists. split; [reflexivity|]. simpl events.
    split; [reflexivity | apply last_opt_snoc].
Qed.

Lemma moveEvent_same_month_witness :
  exists M',
    find_month "2000-06"
      (all_months (fst (moveEvent Sample.env Sample.note Sample.history
                          Sample.june Sample.june Sample.world0))) = Some M' /\
    events M' = [Sample.photo;
                 mkEvent "e1" "2000-06-15" (Some "first steps") None
                   "tick-0" "u1"].
Proof.
  destruct (moveEvent_same_month Sample.env Sample.note Sample.history
              Sample.june Sample.world0 2000 6)
    as [_ [_ [M' [HM [HeM _]]]]].
  - simpl. repeat constructor; simpl; intuition discriminate.
  - simpl. auto.
  - simpl. auto.
  - reflexivity.
  - reflexivity.
  - exists M'. split; [exact HM | exact HeM].
Defined.


(** * Further properties of the builder *)

Section ForallM.

Context {A B : Type} (f : A -> M B) (P : B -> Prop).
Hypothesis P_f : forall a w, P (fst (f a w)).

(** What every callback establishes holds of every element built. *)
Lemma mapM_Forall (l : list A) (w : World) : Forall P (fst (mapM f l w)).
Proof.
  revert w; induction l as [|a l IH]; intro w; simpl; [constructor|].
  unfold bind. destruct (f a w) as [b w1] eqn:Ea.
  destruct (mapM f l w1) as [bs w2] eqn:El. simpl.
  constructor.
  - replace b with (fst (f a w)) by (rewrite Ea; reflexivity). apply P_f.
  - replace bs with (fst (mapM f l w1)) by (rewrite El; reflexivity). apply IH.
Qed.

End ForallM.

Lemma mapM_length {A B} (f : A -> M B) (l : list A) (w : World) :
  List.length (fst (mapM f l w)) = List.length l.
Proof.
  revert w; induction l as [|a l IH]; intro w; simpl; [reflexivity|].
  unfold bind. destruct (f a w) as [b w1].
  specialize (IH w1). destruct (mapM f l w1) as [bs w2]. simpl in *.
  now rewrite IH.
Qed.

Lemma Forall_flat_map {A B} (P : B -> Prop) (f : A -> list B) (l : list A) :
  Forall (fun a => Forall P (f a)) l -> Forall P (flat_map f l).
Proof.
  induction 1 as [|a l Ha _ IH]; simpl; [constructor|].
  apply Forall_app. split; assumption.
Qed.

Lemma String_of_truthy n : Js.truthy (Js.String_of n) = true.
Proof.
  unfold Js.String_of, NilZero.string_of_int.
  destruct (Z.to_int n) as [u|u]; [|reflexivity].
  destruct u; reflexivity.
Qed.

(** The decades, years and months [initiate] builds, whatever its input. *)
Lemma initiate_nodes env birthDate w
    (P : LifeHistoryMonth -> Prop) (Q : LifeHistoryYear -> Prop) :
  (forall y startMonth monthIndex w',
     P (fst (initiate_month env y startMonth monthIndex w'))) ->
  (forall birthYear birthMonth startYear yearIndex w',
     Q (fst (initiate_year env birthYear birthMonth startYear yearIndex w'))) ->
  Forall P (all_months (fst (initiate env birthDate w))) /\
  Forall Q (all_years (fst (initiate env birthDate w))).
Proof.
  intros HP HQ.
  assert (Hy : forall birthYear birthMonth startYear yearIndex w',
            Forall P (months (fst (initiate_year env birthYear birthMonth
                                     startYear yearIndex w')))).
  { intros. unfold initiate_year, array_from, bind.
    match goal with |- context [mapM ?f ?l ?w0] =>
      pose proof (mapM_Forall f P (fun a w1 => HP _ _ a w1) l w0) as H;
      destruct (mapM f l w0) as [ms w1] end.
    exact H. }
  assert (Hd : forall birthYear birthMonth startDecade decadeIndex w',
            Forall P (decade_months (fst (initiate_decade env birthYear
                        birthMonth startDecade decadeIndex w'))) /\
            Forall Q (years (fst (initiate_decade env birthYear
                        birthMonth startDecade decadeIndex w')))).
  { intros. unfold initiate_decade, array_from, bind, decade_months.
    match goal with |- context [mapM ?f ?l ?w0] =>
      pose proof (mapM_Forall f (fun y => Forall P (months y))
                    (fun a w1 => Hy _ _ _ a w1) l w0) as H1;
      pose proof (mapM_Forall f Q (fun a w1 => HQ _ _ _ a w1) l w0) as H2;
      destruct (mapM f l w0) as [ys w1] end.
    simpl in *. split; [apply Forall_flat_map; exact H1 | exact H2]. }
  unfold initiate.
  destruct (negb (Js.truthy_opt birthDate)); [split; constructor|].
  destruct birthDate as [s|]; [|split; constructor].
  destruct (dayjs env s) as [bd|]; [|split; constructor].
  unfold array_from, all_months, all_years.
  match goal with |- context [mapM ?f ?l ?w0] =>
    pose proof (mapM_Forall f (fun d => Forall P (decade_months d))
                  (fun a w1 => proj1 (Hd _ _ _ a w1)) l w0) as H1;
    pose proof (mapM_Forall f (fun d => Forall Q (years d))
                  (fun a w1 => proj2 (Hd _ _ _ a w1)) l w0) as H2 end.
  split; apply Forall_flat_map; assumption.
Qed.

(** X1.  Every month [initiate] builds, for any input, holds exactly one
    event: a text event (and not an image event) whose user is the
    placeholder "string". *)
Theorem initiate_placeholders env birthDate w :
  Forall (fun m => exists e,
            events m = [e] /\
            isLifeHistoryTextEvent e = true /\
            isLifeHistoryImageEvent e = false /\
            user_id e = "string")
         (all_months (fst (initiate env birthDate w))).
Proof.
  apply (proj1 (initiate_nodes env birthDate w _ (fun _ => True)
                  (fun y s i w' =>
                     ex_intro _ _
                       (conj eq_refl
                          (conj (String_of_truthy i) (conj eq_refl eq_refl))))
                  (fun _ _ _ _ _ => I))).
Qed.

Lemma indices_length n : Js.indices (Z.of_nat n) = map Z.of_nat (seq 0 n).
Proof. unfold Js.indices. now rewrite Nat2Z.id. Qed.

Lemma initiate_year_texts env birthYear birthMonth startYear yearIndex w :
  let y := fst (initiate_year env birthYear birthMonth startYear yearIndex w) in
  map (fun m => map event_text (events m)) (months y)
  = map (fun k => [Some (Js.String_of (Z.of_nat k))])
        (seq 0 (List.length (months y))) /\
  map month (months y)
  = map (fun k => startMonth_of birthYear birthMonth (year y) + Z.of_nat k)
        (seq 0 (List.length (months y))) /\
  year_id y = "year-" ++ Js.String_of (year y).
Proof.
  unfold initiate_year, array_from, bind.
  match goal with |- context [mapM ?f ?l w] =>
    pose proof (mapM_map_fst f (fun m => map event_text (events m))
                  (fun i => [Some (Js.String_of i)])
                  (fun a w' => eq_refl) l w) as Ht;
    pose proof (mapM_map_fst f month
                  (fun i => startMonth_of birthYear birthMonth
                              (startYear + yearIndex) + i)
                  (fun a w' => eq_refl) l w) as Hm;
    pose proof (mapM_length f l w) as Hl;
    destruct (mapM f l w) as [ms w1] end.
  simpl in *. rewrite Ht, Hm, Hl.
  unfold Js.indices. rewrite length_map, length_seq, !map_map.
  repeat split.
Qed.

(** X2.  In every year [initiate] builds, for any input, the months are
    numbered consecutively from the first month of the year, the text of
    the placeholder event of the [k]-th month (counting from 0) is the
    decimal text of [k], and the id of the year is "year-" followed by its
    calendar year. *)
Theorem initiate_year_layout env birthDate w :
  Forall (fun y =>
            map (fun m => map event_text (events m)) (months y)
            = map (fun k => [Some (Js.String_of (Z.of_nat k))])
                  (seq 0 (List.length (months y))) /\
            (exists startMonth,
               map month (months y)
               = map (fun k => startMonth + Z.of_nat k)
                     (seq 0 (List.length (months y)))) /\
            year_id y = "year-" ++ Js.String_of (year y))
         (all_years (fst (initiate env birthDate w))).
Proof.
  apply (proj2 (initiate_nodes env birthDate w (fun _ => True) _
                  (fun _ _ _ _ => I)
                  (fun birthYear birthMonth startYear yearIndex w' =>
                     let H := initiate_year_texts env birthYear birthMonth
                                startYear yearIndex w' in
                     conj (proj1 H)
                       (conj (ex_intro _ _ (proj1 (proj2 H)))
                             (proj2 (proj2 H)))))).
Qed.

Lemma decade_count birthYear :
  (birthYear + maxAge) / 10 - birthYear / 10 + 1 = 9.
Proof.
  unfold maxAge. replace (birthYear + 80) with (birthYear + 8 * 10) by lia.
  rewrite Z.div_add by lia. lia.
Qed.

Lemma initiate_decade_labels env birthYear birthMonth startDecade decadeIndex w :
  let d := fst (initiate_decade env birthYear birthMonth startDecade
                  decadeIndex w) in
  decade d = decadeIndex + 1 /\
  decade_id d = "decade-" ++ Js.String_of (startDecade + decadeIndex).
Proof.
  unfold initiate_decade, array_from, bind.
  destruct (mapM _ _ w) as [ys w1]. split; reflexivity.
Qed.

(** X3.  For every non-empty string that dayjs parses, whatever the year,
    [initiate] builds exactly nine decades; their [decade] fields are 1 to
    9 in order, and their ids are "decade-" followed by the absolute decade
    numbers floor(birthYear / 10), floor(birthYear / 10) + 1, ... *)
Theorem initiate_decades env s date w :
  s <> "" -> dayjs env s = Some date ->
  let lifeHistory := fst (initiate env (Some s) w) in
  map decade lifeHistory = [1; 2; 3; 4; 5; 6; 7; 8; 9] /\
  map decade_id lifeHistory
  = map (fun i => "decade-" ++ Js.String_of (dj_year date / 10 + i))
        [0; 1; 2; 3; 4; 5; 6; 7; 8].
Proof.
  intros Hs Hd lifeHistory. subst lifeHistory.
  unfold initiate.
  replace (negb (Js.truthy_opt (Some s))) with false
    by (destruct s; [contradiction Hs; reflexivity | reflexivity]).
  rewrite Hd, decade_count. unfold array_from.
  split.
  - change [1; 2; 3; 4; 5; 6; 7; 8; 9]
      with (map (fun i => i + 1) (Js.indices 9)).
    apply mapM_map_fst. intros a w'. apply initiate_decade_labels.
  - change [0; 1; 2; 3; 4; 5; 6; 7; 8] with (Js.indices 9).
    apply mapM_map_fst. intros a w'. apply initiate_decade_labels.
Qed.

Lemma initiate_decades_witness :
  map decade (fst (initiate Sample.env (Some "2000-06-15") Sample.world0))
  = [1; 2; 3; 4; 5; 6; 7; 8; 9].
Proof.
  assert (Hs : "2000-06-15" <> "") by discriminate.
  assert (Hd : dayjs Sample.env "2000-06-15" = Some (mkDayjs 2000 5 15))
    by reflexivity.
  exact (proj1 (initiate_decades Sample.env "2000-06-15" (mkDayjs 2000 5 15)
                  Sample.world0 Hs Hd)).
Defined.

(** ** The order of the calendar *)

Lemma calendar_order_check_all_true : calendar_order_check_all = true.
Proof. vm_compute. reflexivity. Qed.

Lemma calendar_order_check_true r birthMonth :
  0 <= r < 10 -> 1 <= birthMonth <= 12 ->
  calendar_order_check r birthMonth = true.
Proof.
  intros Hr Hm.
  pose proof calendar_order_check_all_true as H.
  unfold calendar_order_check_all in H.
  rewrite forallb_forall in H.
  specialize (H r). rewrite forallb_forall in H.
  apply H.
  - apply in_map_iff. exists (Z.to_nat r). split; [lia|]. apply in_seq. lia.
  - apply in_map_iff. exists (Z.to_nat birthMonth). split; [lia|].
    apply in_seq. lia.
Qed.

Lemma chainedb_chained l : chainedb l = true -> chained l.
Proof.
  induction l as [|a [|b l] IH]; simpl; intro H; try exact I.
  apply andb_prop in H. destruct H as [H1 H2].
  split; [now apply key_eqb_eq | apply IH; exact H2].
Qed.

Lemma next_month_shift c k :
  next_month (shift_key c k) = shift_key c (next_month k).
Proof.
  unfold next_month, shift_key. simpl.
  destruct (snd k =? 12); simpl; f_equal; lia.
Qed.

Lemma chained_shift c l : chained l -> chained (map (shift_key c) l).
Proof.
  induction l as [|a [|b l] IH]; simpl; intro H; try exact I.
  destruct H as [-> H]. split; [now rewrite next_month_shift|].
  apply IH. exact H.
Qed.

Lemma zlist_eqb_eq a b : zlist_eqb a b = true -> a = b.
Proof.
  revert b; induction a as [|x a IH]; intros [|y b]; simpl; intro H;
    try discriminate; [reflexivity|].
  apply andb_prop in H. destruct H as [H1 H2].
  apply Z.eqb_eq in H1. subst y. f_equal. now apply IH.
Qed.

Lemma shape_years_shift c s :
  shape_years (shift_shape c s) = map (fun y => y + c) (shape_years s).
Proof.
  unfold shape_years, shift_shape.
  induction s as [|d s IH]; simpl; [reflexivity|].
  rewrite !map_app, IH, !map_map. reflexivity.
Qed.

(** The order of the calendar of any birth year and month. *)
Lemma calendar_order_facts birthYear birthMonth :
  1 <= birthMonth <= 12 ->
  let s := calendar birthYear birthMonth in
  chained (shape_keys s) /\
  Forall (fun k => 1 <= snd k <= 12) (shape_keys s) /\
  shape_years s = map (fun i => birthYear + i) (Js.indices 81) /\
  Forall (fun d => d <> []) s /\
  Forall (Forall (fun y : Z * list Z => snd y <> [])) s.
Proof.
  intros Hm s. subst s.
  pose proof (Z.mod_pos_bound birthYear 10 ltac:(lia)) as Hr.
  pose proof (Z.div_mod birthYear 10 ltac:(lia)) as Hq.
  set (r := birthYear mod 10) in *. set (q := birthYear / 10) in *.
  replace birthYear with (r + q * 10) by lia.
  rewrite calendar_shift, shape_keys_shift, shape_years_shift.
  pose proof (calendar_order_check_true r birthMonth Hr Hm) as H.
  unfold calendar_order_check in H. cbv zeta in H.
  apply andb_prop in H; destruct H as [H H4].
  apply andb_prop in H; destruct H as [H H3].
  apply andb_prop in H; destruct H as [H H2].
  apply andb_prop in H; destruct H as [H0 H1].
  split; [|split; [|split; [|split]]].
  - apply chained_shift, chainedb_chained, H0.
  - apply Forall_forall. intros k Hk.
    apply in_map_iff in Hk. destruct Hk as [k0 [<- Hk]].
    rewrite forallb_forall in H1. specialize (H1 k0 Hk).
    unfold month_in_range in H1. apply andb_prop in H1.
    unfold shift_key. simpl. lia.
  - rewrite (zlist_eqb_eq _ _ H2), map_map.
    apply map_ext. intro i. lia.
  - unfold shift_shape. apply Forall_forall. intros d Hd.
    apply in_map_iff in Hd. destruct Hd as [d0 [<- Hd]].
    rewrite forallb_forall in H3. specialize (H3 d0 Hd).
    destruct d0; [discriminate H3 | discriminate].
  - unfold shift_shape. apply Forall_forall. intros d Hd.
    apply in_map_iff in Hd. destruct Hd as [d0 [<- Hd]].
    rewrite forallb_forall in H4. specialize (H4 d0 Hd).
    apply Forall_forall. intros y Hy.
    apply in_map_iff in Hy. destruct Hy as [y0 [<- Hy]].
    rewrite forallb_forall in H4. specialize (H4 y0 Hy).
    unfold shift_year. simpl. destruct (snd y0); [discriminate H4 | discriminate].
Qed.





(** X5.  For every valid birth date the months of the structure, taken in
    order across years and decades, follow one another without a gap: each
    month is followed by the next month of the calendar (December by
    January of the next year), and every month number is between 1 and
    12. *)
Theorem initiate_months_chained env s birthYear birthMonth w :
  birth_date env s birthYear birthMonth ->
  let lifeHistory := fst (initiate env (Some s) w) in
  chained (month_keys lifeHistory) /\
  Forall (fun m => 1 <= month m <= 12) (all_months lifeHistory).
Proof.
  intros Hb lifeHistory.
  pose proof (shape_initiate env s birthYear birthMonth w Hb) as Hs.
  fold lifeHistory in Hs.
  destruct Hb as [_ [Hm _]].
  destruct (calendar_order_facts birthYear birthMonth Hm) as [Hc [Hr _]].
  rewrite <- Hs, <- month_keys_shape in Hc, Hr.
  split; [exact Hc|].
  clear - Hr. unfold month_keys, all_months in *.
  apply Forall_flat_map. apply Forall_forall. intros d Hd.
  apply Forall_flat_map. apply Forall_forall. intros y Hy.
  apply Forall_forall. intros m Hmm.
  rewrite Forall_forall in Hr.
  apply (Hr (year y, month m)).
  apply in_flat_map. exists d. split; [exact Hd|].
  apply in_flat_map. exists y. split; [exact Hy|].
  unfold year_keys. apply in_map_iff. exists m. split; [reflexivity | exact Hmm].
Qed.

Lemma initiate_months_chained_witness :
  chained
    (month_keys (fst (initiate Sample.env (Some "2000-06-15") Sample.world0))).
Proof.
  assert (Hb : birth_date Sample.env "2000-06-15" 2000 6).
  { split; [discriminate|]. split; [lia|]. exists 15. reflexivity. }
  exact (proj1 (initiate_months_chained Sample.env "2000-06-15" 2000 6
                  Sample.world0 Hb)).
Defined.

(** ** What the builder draws from the ambient services *)

Lemma advance_0 w : advance 0 w = w.
Proof.
  destruct w. unfold advance. simpl. now rewrite !Nat.add_0_r.
Qed.

Lemma advance_advance j k w : advance k (advance j w) = advance (j + k) w.
Proof. unfold advance. simpl. now rewrite !Nat.add_assoc. Qed.

Lemma drawn_nil env w : drawn env [] w w.
Proof.
  unfold drawn. simpl. rewrite advance_0. repeat split.
Qed.

Lemma drawn_app env evs1 evs2 w w1 w2 :
  drawn env evs1 w w1 -> drawn env evs2 w1 w2 ->
  drawn env (evs1 ++ evs2) w w2.
Proof.
  intros [Hi1 [Hs1 ->]] [Hi2 [Hs2 ->]]. unfold drawn.
  rewrite !map_app, length_app, !seq_app, !map_app, advance_advance.
  simpl in Hi2, Hs2. rewrite Hi1, Hi2, Hs1, Hs2. repeat split.
Qed.

Lemma flat_map_flat_map {A B C} (f : B -> list C) (g : A -> list B) l :
  flat_map f (flat_map g l) = flat_map (fun a => flat_map f (g a)) l.
Proof.
  induction l as [|a l IH]; simpl; [reflexivity|].
  now rewrite flat_map_app, IH.
Qed.

Section Drawn.

Context (env : Env) {A B : Type} (f : A -> M B)
        (evs_of : B -> list LifeHistoryEvent).
Hypothesis drawn_f :
  forall a w, drawn env (evs_of (fst (f a w))) w (snd (f a w)).

(** Callbacks that create their events in order create, one after the
    other, all their events in order. *)
Lemma mapM_drawn (l : list A) (w : World) :
  drawn env (flat_map evs_of (fst (mapM f l w))) w (snd (mapM f l w)).
Proof.
  revert w; induction l as [|a l IH]; intro w; simpl; [apply drawn_nil|].
  unfold bind. pose proof (drawn_f a w) as Ha.
  destruct (f a w) as [b w1].
  pose proof (IH w1) as Hl. destruct (mapM f l w1) as [bs w2].
  simpl in *. exact (drawn_app _ _ _ _ _ _ Ha Hl).
Qed.

End Drawn.

Lemma initiate_month_drawn env y startMonth monthIndex w :
  drawn env (events (fst (initiate_month env y startMonth monthIndex w))) w
        (snd (initiate_month env y startMonth monthIndex w)).
Proof.
  unfold drawn, advance. simpl. rewrite !Nat.add_1_r. repeat split.
Qed.

Lemma initiate_year_drawn env birthYear birthMonth startYear yearIndex w :
  drawn env
    (flat_map events
       (months (fst (initiate_year env birthYear birthMonth startYear
                       yearIndex w))))
    w (snd (initiate_year env birthYear birthMonth startYear yearIndex w)).
Proof.
  unfold initiate_year, array_from, bind.
  match goal with |- context [mapM ?f ?l w] =>
    pose proof (mapM_drawn env f events
                  (fun a w' => initiate_month_drawn env _ _ a w') l w) as H;
    destruct (mapM f l w) as [ms w1] end.
  exact H.
Qed.

Lemma initiate_decade_drawn env birthYear birthMonth startDecade decadeIndex w :
  drawn env
    (flat_map events
       (decade_months (fst (initiate_decade env birthYear birthMonth
                              startDecade decadeIndex w))))
    w (snd (initiate_decade env birthYear birthMonth startDecade
              decadeIndex w)).
Proof.
  unfold initiate_decade, array_from, bind, decade_months.
  match goal with |- context [mapM ?f ?l w] =>
    pose proof (mapM_drawn env f (fun y => flat_map events (months y))
                  (fun a w' => initiate_year_drawn env _ _ _ a w') l w) as H;
    destruct (mapM f l w) as [ys w1] end.
  simpl in *. rewrite flat_map_flat_map. exact H.
Qed.

Lemma initiate_drawn env birthDate w :
  drawn env (all_events (fst (initiate env birthDate w))) w
        (snd (initiate env birthDate w)).
Proof.
  unfold initiate.
  destruct (negb (Js.truthy_opt birthDate)); [apply drawn_nil|].
  destruct birthDate as [s|]; [|apply drawn_nil].
  destruct (dayjs env s) as [bd|]; [|apply drawn_nil].
  unfold array_from, all_events, all_months.
  rewrite flat_map_flat_map.
  apply (mapM_drawn env _ (fun d => flat_map events (decade_months d))).
  intros a w'. apply initiate_decade_drawn.
Qed.

Lemma initiate_one_event_each env birthDate w :
  Forall (fun m => List.length (events m) = 1%nat)
         (all_months (fst (initiate env birthDate w))).
Proof.
  apply (proj1 (initiate_nodes env birthDate w _ (fun _ => True)
                  (fun _ _ _ _ => eq_refl) (fun _ _ _ _ _ => I))).
Qed.

Lemma one_event_each (l : list LifeHistoryMonth) :
  Forall (fun m => List.length (events m) = 1%nat) l ->
  List.length (flat_map events l) = List.length l.
Proof.
  induction 1 as [|m l He _ IH]; simpl; [reflexivity|].
  rewrite length_app, He, IH. reflexivity.
Qed.

(** X6.  For any input, [initiate] draws one identifier and reads the clock
    once for every month it builds, and writes nothing to the console; the
    ids of the placeholder events, in the order of the months, are the
    successive identifiers of the generator, and their [updated_at] stamps
    the successive readings of the clock. *)
Theorem initiate_draws env birthDate w :
  let lifeHistory := fst (initiate env birthDate w) in
  let n := List.length (all_months lifeHistory) in
  snd (initiate env birthDate w) = advance n w /\
  map event_id (all_events lifeHistory)
  = map (randomUUID env) (seq (uuids_drawn w) n) /\
  map updated_at (all_events lifeHistory)
  = map (timestamp env) (seq (clock_reads w) n).
Proof.
  intros lifeHistory n. subst n lifeHistory.
  destruct (initiate_drawn env birthDate w) as [Hi [Hs Hw]].
  pose proof (one_event_each _ (initiate_one_event_each env birthDate w)) as Hn.
  fold (all_events (fst (initiate env birthDate w))) in Hn.
  rewrite <- Hn. split; [exact Hw|]. split; [exact Hi | exact Hs].
Qed.

(** * Further properties of the mover *)

(** X7.  [findEntities] returns nothing exactly when no month of the
    structure has the id; what it returns otherwise is a decade of the
    structure, a year of that decade and a month of that year, the month
    has the id, and it is the first month with the id in document order. *)
Theorem findEntities_spec lifeHistory id :
  (findEntities lifeHistory id = None <->
     ~ In id (map month_id (all_months lifeHistory))) /\
  (forall found, findEntities lifeHistory id = Some found ->
     In (ent_decade found) lifeHistory /\
     In (ent_year found) (years (ent_decade found)) /\
     In (ent_month found) (months (ent_year found)) /\
     month_id (ent_month found) = id /\
     find_month id (all_months lifeHistory) = Some (ent_month found)).
Proof.
  split.
  - rewrite <- find_month_none, <- findEntities_month.
    destruct (findEntities lifeHistory id); simpl; split; congruence.
  - intros found H.
    destruct (findEntities_sound _ _ _ H) as [Hd [Hy [Hm Hid]]].
    repeat (split; [assumption|]).
    rewrite <- findEntities_month, H. reflexivity.
Qed.

Lemma findEntities_spec_witness :
  find_month "2010-01" (all_months Sample.history) = Some Sample.january10.
Proof.
  exact (proj2 (proj2 (proj2 (proj2
           (proj2 (findEntities_spec Sample.history "2010-01")
              (mkEntities
                 (mkDecade "decade-201" 2
                    [mkYear "year-2010" 2010 [Sample.january10]])
                 (mkYear "year-2010" 2010 [Sample.january10])
                 Sample.january10)
              eq_refl))))).
Defined.

Lemma findEntities_found lifeHistory id m :
  find_month id (all_months lifeHistory) = Some m ->
  exists found, findEntities lifeHistory id = Some found /\ ent_month found = m.
Proof.
  rewrite <- findEntities_month.
  destruct (findEntities lifeHistory id) as [found|]; [|discriminate].
  simpl. intros [= <-]. exists found. split; reflexivity.
Qed.

(** The months after a successful move, when month ids are unique; the
    source and target arguments count through their ids only. *)
Lemma moveEvent_months_found env event lifeHistory sourceMonth targetMonth w
    A B e0 :
  NoDup (map month_id (all_months lifeHistory)) ->
  find_month (month_id sourceMonth) (all_months lifeHistory) = Some A ->
  find_month (month_id targetMonth) (all_months lifeHistory) = Some B ->
  find (fun e => String.eqb (event_id e) (event_id event)) (events A)
  = Some e0 ->
  all_months (fst (moveEvent env event lifeHistory sourceMonth targetMonth w))
  = map (fun m =>
           on_month (month_id targetMonth)
             (with_event
                (with_dates e0
                   (format_YYYY_MM_DD
                      (dayjs env (month_id targetMonth ++ "-15")))
                   (timestamp env (clock_reads w))))
             (on_month (month_id sourceMonth)
                (without_event (event_id event)) m))
        (all_months lifeHistory) /\
  snd (moveEvent env event lifeHistory sourceMonth targetMonth w)
  = mkWorld (uuids_drawn w) (S (clock_reads w)) (console w).
Proof.
  intros ND HA HB He.
  destruct (findEntities_found _ _ _ HA) as [se [Hse Ese]].
  destruct (findEntities_found _ _ _ HB) as [te [Hte Ete]].
  rewrite <- Ese in He.
  rewrite (moveEvent_success _ _ _ _ _ _ _ _ _ Hse Hte He). simpl fst.
  split; [|reflexivity].
  rewrite Ete, (proj2 (find_month_some _ _ _ HB)).
  apply all_months_map_months. intros d y m Hd Hy Hm.
  rewrite (guarded_on_month _ _ _ _ d y m ND Hse Hd Hy Hm m eq_refl).
  apply (guarded_on_month _ _ _ _ d y m ND Hte Hd Hy Hm).
  apply on_month_id.
Qed.




(** ** The mover keeps the events *)

Lemma count_zero_without eventId evs :
  count_id eventId evs = 0%nat -> without_event eventId evs = evs.
Proof.
  unfold count_id, without_event.
  induction evs as [|a evs IH]; simpl; [reflexivity|].
  destruct (String.eqb (event_id a) eventId); simpl; [discriminate|].
  intro H. now rewrite IH.
Qed.

Lemma take_out_one eventId evs e0 :
  find (fun e => String.eqb (event_id e) eventId) evs = Some e0 ->
  count_id eventId evs = 1%nat ->
  Permutation (e0 :: without_event eventId evs) evs.
Proof.
  induction evs as [|a evs IH]; simpl; [discriminate|].
  unfold count_id, without_event. simpl.
  destruct (String.eqb (event_id a) eventId) eqn:E; simpl.
  - intros [= <-] Hc. injection Hc as Hc.
    fold (without_event eventId evs).
    rewrite (count_zero_without eventId evs Hc). reflexivity.
  - intros Hf Hc. fold (without_event eventId evs).
    rewrite perm_swap. apply perm_skip. exact (IH Hf Hc).
Qed.

Lemma on_month_absent id f l :
  ~ In id (map month_id l) -> map (on_month id f) l = l.
Proof.
  intro H. apply map_fixed. intros m Hm. unfold on_month.
  destruct (String.eqb_spec (month_id m) id) as [E|E]; [|reflexivity].
  exfalso. apply H. rewrite <- E. apply in_map. exact Hm.
Qed.

(** Editing the events of the month with a given id, in a list of months
    with unique ids, edits one segment of the list of all events. *)
Lemma edit_segment id l X :
  NoDup (map month_id l) -> find_month id l = Some X ->
  exists before after,
    flat_map events l = (before ++ events X ++ after)%list /\
    forall f,
      flat_map events (map (on_month id f) l)
      = (before ++ f (events X) ++ after)%list.
Proof.
  induction l as [|a l IH]; simpl; intros ND Hf; [discriminate|].
  inversion ND as [|? ? Hnot ND']; subst.
  destruct (String.eqb_spec (month_id a) id) as [E|E].
  - injection Hf as <-. exists [], (flat_map events l).
    split; [reflexivity|]. intro f. simpl.
    rewrite on_month_absent by (rewrite <- E; exact Hnot).
    unfold on_month. rewrite (proj2 (String.eqb_eq _ _) E). reflexivity.
  - destruct (IH ND' Hf) as [before [after [H1 H2]]].
    exists (events a ++ before)%list, after.
    split; [rewrite H1; now rewrite app_assoc|].
    intro f. rewrite H2. unfold on_month at 1.
    rewrite (proj2 (String.eqb_neq _ _) E). now rewrite app_assoc.
Qed.

(** X9.  In a structure whose month ids are unique, a successful move of
    an event that its source month holds exactly once (to another month or
    to the same one) keeps the events of the structure: the events after
    the move are, up to their order and their two date fields, the events
    before it, each with its id, text, image and user. *)
Theorem moveEvent_keeps_events env event lifeHistory sourceMonth targetMonth w
    A B e0 :
  NoDup (map month_id (all_months lifeHistory)) ->
  find_month (month_id sourceMonth) (all_months lifeHistory) = Some A ->
  find_month (month_id targetMonth) (all_months lifeHistory) = Some B ->
  find (fun e => String.eqb (event_id e) (event_id event)) (events A)
  = Some e0 ->
  count_id (event_id event) (events A) = 1%nat ->
  Permutation
    (map content
       (all_events
          (fst (moveEvent env event lifeHistory sourceMonth targetMonth w))))
    (map content (all_events lifeHistory)).
Proof.
  intros ND HA HB He Hc. unfold all_events.
  rewrite (proj1 (moveEvent_months_found _ _ _ _ _ _ _ _ _ ND HA HB He)).
  set (moved := with_dates e0 _ _).
  rewrite <- (map_map (on_month (month_id sourceMonth)
                         (without_event (event_id event)))
                      (on_month (month_id targetMonth) (with_event moved))).
  destruct (edit_segment _ _ _ ND HA) as [b1 [a1 [H1 H1']]].
  set (l1 := map (on_month (month_id sourceMonth)
                    (without_event (event_id event)))
                 (all_months lifeHistory)).
  assert (ND1 : NoDup (map month_id l1)).
  { unfold l1. rewrite map_map.
    erewrite map_ext; [exact ND|]. intro m. apply on_month_id. }
  assert (HB1 : find_month (month_id targetMonth) l1
                = Some (on_month (month_id sourceMonth)
                          (without_event (event_id event)) B)).
  { unfold l1. rewrite find_month_map by (intro m; apply on_month_id).
    rewrite HB. reflexivity. }
  destruct (edit_segment _ _ _ ND1 HB1) as [b2 [a2 [H2 H2']]].
  rewrite (H2' (with_event moved)). unfold with_event.
  rewrite H1. unfold l1 in H2. rewrite H1' in H2.
  set (B1 := on_month (month_id sourceMonth)
               (without_event (event_id event)) B) in *.
  assert (P1 : Permutation (b2 ++ (events B1 ++ [moved]) ++ a2)%list
                 (moved :: b1 ++ without_event (event_id event) (events A)
                  ++ a1)%list).
  { rewrite H2. rewrite <- (app_assoc (events B1)). simpl.
    rewrite !(app_assoc b2). symmetry. apply Permutation_middle. }
  assert (P2 : Permutation
                 (e0 :: b1 ++ without_event (event_id event) (events A)
                  ++ a1)%list
                 (b1 ++ events A ++ a1)%list).
  { transitivity (b1 ++ e0 :: without_event (event_id event) (events A)
                  ++ a1)%list.
    - apply Permutation_middle.
    - apply Permutation_app_head.
      change (e0 :: without_event (event_id event) (events A) ++ a1)%list
        with ((e0 :: without_event (event_id event) (events A)) ++ a1)%list.
      apply Permutation_app_tail. exact (take_out_one _ _ _ He Hc). }
  rewrite (Permutation_map content P1), <- (Permutation_map content P2).
  reflexivity.
Qed.

Lemma moveEvent_keeps_events_witness :
  Permutation
    (map content
       (all_events
          (fst (moveEvent Sample.env Sample.note Sample.history Sample.june
                  Sample.july Sample.world0))))
    (map content (all_events Sample.history)).
Proof.
  assert (ND : NoDup (map month_id (all_months Sample.history))).
  { simpl. repeat constructor; simpl; intuition discriminate. }
  exact (moveEvent_keeps_events Sample.env Sample.note Sample.history
           Sample.june Sample.july Sample.world0 Sample.june Sample.july
           Sample.note ND eq_refl eq_refl eq_refl eq_refl).
Defined.

(** ** Moving an event away and back *)

Lemma find_after_none eventId evs e :
  count_id eventId evs = 0%nat -> event_id e = eventId ->
  find (fun x => String.eqb (event_id x) eventId) (evs ++ [e]) = Some e.
Proof.
  unfold count_id. intros Hc He.
  induction evs as [|a evs IH]; simpl in *.
  - rewrite He, String.eqb_refl. reflexivity.
  - destruct (String.eqb (event_id a) eventId); [discriminate Hc|].
    exact (IH Hc).
Qed.

Lemma without_event_app eventId evs1 evs2 :
  without_event eventId (evs1 ++ evs2)
  = (without_event eventId evs1 ++ without_event eventId evs2)%list.
Proof. unfold without_event. apply filter_app. Qed.

Lemma on_month_hit id f m :
  month_id m = id -> on_month id f m = with_events m (f (events m)).
Proof.
  intro E. unfold on_month. now rewrite (proj2 (String.eqb_eq _ _) E).
Qed.

Lemma on_month_miss id f m : month_id m <> id -> on_month id f m = m.
Proof.
  intro E. unfold on_month. now rewrite (proj2 (String.eqb_neq _ _) E).
Qed.

(** X10.  In a structure whose month ids are unique, moving an event from
    month A to another month B that holds no event with its id, and then
    moving it back from B to A, gives the months that moving the event from
    A onto A itself gives at the time of the second move: B and every other
    month are as they were before the two moves, and A holds its other
    events in their order followed by the event, dated in A and stamped
    with the second reading of the clock. *)
Theorem moveEvent_there_and_back env event lifeHistory A B w :
  NoDup (map month_id (all_months lifeHistory)) ->
  In A (all_months lifeHistory) ->
  In B (all_months lifeHistory) ->
  month_id A <> month_id B ->
  In event (events A) ->
  count_id (event_id event) (events A) = 1%nat ->
  count_id (event_id event) (events B) = 0%nat ->
  let there := moveEvent env event lifeHistory A B w in
  let back := moveEvent env event (fst there) B A (snd there) in
  all_months (fst back)
  = all_months (fst (moveEvent env event lifeHistory A A (snd there))) /\
  snd back = mkWorld (uuids_drawn w) (S (S (clock_reads w))) (console w).
Proof.
  intros ND HA HB Hne He Hc H0 there back. subst back there.
  pose proof (find_month_unique _ _ ND HA) as FA.
  pose proof (find_month_unique _ _ ND HB) as FB.
  pose proof (find_unique_id _ _ He Hc) as Fe.
  destruct (moveEvent_months_found env event lifeHistory A B w A B event
              ND FA FB Fe) as [E1 W1].
  set (moved1 := with_dates event
                   (format_YYYY_MM_DD (dayjs env (month_id B ++ "-15")))
                   (timestamp env (clock_reads w))) in *.
  set (g1 := fun m => on_month (month_id B) (with_event moved1)
                        (on_month (month_id A)
                           (without_event (event_id event)) m)) in *.
  assert (EAB : String.eqb (month_id A) (month_id B) = false)
    by now apply String.eqb_neq.
  assert (EBA : String.eqb (month_id B) (month_id A) = false)
    by (apply String.eqb_neq; congruence).
  assert (Hg1 : forall m, month_id (g1 m) = month_id m).
  { intro m. unfold g1. now rewrite !on_month_id. }
  assert (ND1 : NoDup (map month_id
                         (all_months (fst (moveEvent env event lifeHistory
                                             A B w))))).
  { rewrite E1, map_map. erewrite map_ext; [exact ND | exact Hg1]. }
  assert (FB1 : find_month (month_id B)
                  (all_months (fst (moveEvent env event lifeHistory A B w)))
                = Some (with_events B (events B ++ [moved1])%list)).
  { rewrite E1, (find_month_map g1 _ _ Hg1), FB. simpl. f_equal.
    unfold g1. unfold on_month at 2. rewrite EBA.
    unfold on_month. rewrite String.eqb_refl. reflexivity. }
  assert (FA1 : find_month (month_id A)
                  (all_months (fst (moveEvent env event lifeHistory A B w)))
                = Some (g1 A)).
  { rewrite E1, (find_month_map g1 _ _ Hg1), FA. reflexivity. }
  assert (Fe1 : find (fun e => String.eqb (event_id e) (event_id event))
                  (events (with_events B (events B ++ [moved1])%list))
                = Some moved1).
  { simpl. apply find_after_none; [exact H0 | reflexivity]. }
  destruct (moveEvent_months_found env event _ B A
              (snd (moveEvent env event lifeHistory A B w)) _ _ _
              ND1 FB1 FA1 Fe1) as [E2 W2].
  destruct (moveEvent_months_found env event lifeHistory A A
              (snd (moveEvent env event lifeHistory A B w)) A A event
              ND FA FA Fe) as [E3 _].
  split; [|rewrite W2, W1; reflexivity].
  rewrite E2, E3, E1, map_map. apply map_ext_in. intros m Hm.
  unfold g1.
  destruct (String.eqb_spec (month_id m) (month_id A)) as [EmA|EmA].
  - rewrite (on_month_hit (month_id A) _ m EmA).
    rewrite (on_month_miss (month_id B) (with_event moved1))
      by (simpl; congruence).
    rewrite (on_month_miss (month_id B) (without_event (event_id event)))
      by (simpl; congruence).
    reflexivity.
  - rewrite !(on_month_miss (month_id A) (without_event (event_id event)) m)
      by exact EmA.
    destruct (String.eqb_spec (month_id m) (month_id B)) as [EmB|EmB].
    + pose proof (same_id_same_month _ _ _ ND Hm HB EmB) as ->.
      rewrite (on_month_hit (month_id B) (with_event moved1) B eq_refl).
      rewrite (on_month_hit (month_id B) (without_event (event_id event)))
        by reflexivity.
      simpl events.
      change (with_event moved1 (events B)) with (events B ++ [moved1])%list.
      rewrite without_event_app, (count_zero_without _ _ H0).
      replace (without_event (event_id event) [moved1]) with
        (@nil LifeHistoryEvent)
        by (unfold without_event; simpl; now rewrite String.eqb_refl).
      rewrite app_nil_r.
      rewrite (on_month_miss (month_id A) _ B EmA).
      rewrite on_month_miss by (simpl; exact EmA).
      destruct B; reflexivity.
    + rewrite !(on_month_miss (month_id B) _ m EmB).
      reflexivity.
Qed.

Lemma moveEvent_there_and_back_witness :
  all_months
    (fst (moveEvent Sample.env Sample.note
            (fst (moveEvent Sample.env Sample.note Sample.history Sample.june
                    Sample.july Sample.world0))
            Sample.july Sample.june
            (snd (moveEvent Sample.env Sample.note Sample.history Sample.june
                    Sample.july Sample.world0))))
  = all_months
      (fst (moveEvent Sample.env Sample.note Sample.history Sample.june
              Sample.june
              (snd (moveEvent Sample.env Sample.note Sample.history
                      Sample.june Sample.july Sample.world0)))).
Proof.
  assert (ND : NoDup (map month_id (all_months Sample.history))).
  { simpl. repeat constructor; simpl; intuition discriminate. }
  assert (HA : In Sample.june (all_months Sample.history))
    by (simpl; auto).
  assert (HB : In Sample.july (all_months Sample.history))
    by (simpl; auto).
  assert (Hne : month_id Sample.june <> month_id Sample.july)
    by discriminate.
  assert (He : In Sample.note (events Sample.june)) by (simpl; auto).
  exact (proj1 (moveEvent_there_and_back Sample.env Sample.note
                  Sample.history Sample.june Sample.july Sample.world0
                  ND HA HB Hne He eq_refl eq_refl)).
Defined.
